(** * wal-g: the S3 storage folder and the object-copy engine

    A shallow embedding of [pkg/storages/s3/folder.go] (package [s3]) and of
    the copy engine (package [copy]) together with the properties of their
    specification.

    The object store is an external service.  It is modelled as a record of
    response functions ([S3API]), each of which sees the list of requests
    issued so far: any deterministic backend is such a function of its
    history.  Every request the code issues is appended to the [trace] of the
    [World], so that "issues no backend query" and "issues three batch
    calls" are statements about the trace.

    [*Config] is a pointer in the source and is shared between a folder and
    its sub-folders; the [World] therefore carries a store of [Config]
    values and a [Folder] holds a location in that store. *)

From stdpp Require Import gmap strings list pretty.
From Stdlib Require Import ZArith Lia.

Open Scope Z_scope.
Open Scope string_scope.
Open Scope list_scope.
Open Scope nat_scope.

(** ** Go values shared by both packages *)

(** The values of Go's [error] interface that the code builds or inspects:
    an [awserr.Error] carries a code, [errors.Wrapf] keeps its cause,
    [storage.NewObjectNotFoundError] is a type of its own, [fmt.Errorf] and
    every other error are plain messages. *)
Inductive error : Type :=
| AwsError (code message : string)
| PlainError (message : string)
| WrapError (cause : error) (message : string)
| ObjectNotFoundError (path : string).

(** [(T, error)] results. *)
Inductive Result (A : Type) : Type :=
| Ok (a : A)
| Err (e : error).
Arguments Ok {A} a.
Arguments Err {A} e.

(** [time.Time] and [int64] values are integers here. *)
Definition Time := Z.

(** [storage.Object] as built by [storage.NewLocalObject] and
    [storage.NewLocalObjectWithAdditionalInfo]. *)
Record Object : Type := mkObject {
  GetName : string;
  GetLastModified : Time;
  GetSize : Z;
  GetAdditionalInfo : string
}.

Definition NewLocalObject (name : string) (t : Time) (size : Z) : Object :=
  mkObject name t size "".

Definition NewLocalObjectWithAdditionalInfo
    (name : string) (t : Time) (size : Z) (info : string) : Object :=
  mkObject name t size info.

(** [io.Reader] / [io.ReadCloser]: the bytes of a body, possibly wrapped in
    the retrying range reader of [NewRangeReader]. *)
Inductive Reader : Type :=
| Body (content : string)
| RangeReader (body : Reader) (objectPath : string) (maxRetries : Z).

(** ** The S3 SDK types the code touches

    The SDK hands the fields of a listed entry out behind pointers, which
    [listFunc] and [listVersions] dereference without a check.  The records
    stand for entries whose fields are all set; an entry with a nil field is
    outside the model. *)

Record ObjectIdentifier : Type := mkObjectIdentifier {
  oiKey : string;
  oiVersionId : option string
}.

Record ObjectVersion : Type := mkObjectVersion {
  ovKey : string;
  ovVersionId : string;
  ovIsLatest : bool;
  ovLastModified : Time;
  ovSize : Z
}.

Record DeleteMarkerEntry : Type := mkDeleteMarkerEntry {
  dmKey : string;
  dmVersionId : string;
  dmIsLatest : bool;
  dmLastModified : Time
}.

Record S3Object : Type := mkS3Object {
  soKey : string;
  soLastModified : Time;
  soSize : Z
}.

(** One page of [ListObjects] / [ListObjectsV2]: common prefixes and contents. *)
Record ListObjectsOutput : Type := mkListObjectsOutput {
  loCommonPrefixes : list string;
  loContents : list S3Object
}.

(** [s3.ListObjectVersionsOutput]. *)
Record ListObjectVersionsOutput : Type := mkListObjectVersionsOutput {
  lvCommonPrefixes : list string;
  lvVersions : list ObjectVersion;
  lvDeleteMarkers : list DeleteMarkerEntry
}.

(** [s3.GetBucketVersioningOutput]: [Status] is a [*string]. *)
Record GetBucketVersioningOutput : Type := mkGetBucketVersioningOutput {
  Status : option string
}.

Definition BucketVersioningStatusEnabled : string := "Enabled".

(** The requests the code sends to the object store (the uploader's
    multipart upload is one request here). *)
Inductive Request : Type :=
| ReqHeadObject (bucket key : string)
| ReqGetObject (bucket key : string)
| ReqListObjectsPages (bucket prefix delimiter : string) (maxKeys : option Z)
| ReqListObjectsV2Pages (bucket prefix delimiter : string) (maxKeys : option Z)
| ReqListObjectVersionsPages (bucket prefix delimiter : string)
| ReqListObjectVersions (bucket prefix : string)
| ReqDeleteObjects (bucket : string) (objects : list ObjectIdentifier)
| ReqGetBucketVersioning (bucket : string)
| ReqUpload (bucket key : string) (content : Reader).

(** [s3iface.S3API]: what the store answers to a request, given the requests
    it has received before.  A paged call delivers its pages to the callback
    and then returns its error, if any. *)
Record S3API : Type := mkS3API {
  HeadObject : list Request -> string -> string -> option error;
  GetObject : list Request -> string -> string -> Result Reader;
  ListObjectsPages :
    list Request -> string -> string -> string -> option Z ->
    list ListObjectsOutput * option error;
  ListObjectsV2Pages :
    list Request -> string -> string -> string -> option Z ->
    list ListObjectsOutput * option error;
  ListObjectVersionsPages :
    list Request -> string -> string -> string ->
    list ListObjectVersionsOutput * option error;
  ListObjectVersions :
    list Request -> string -> string -> Result ListObjectVersionsOutput;
  DeleteObjectsAPI : list Request -> string -> list ObjectIdentifier -> option error;
  GetBucketVersioning : list Request -> string -> Result GetBucketVersioningOutput
}.

(** [*Uploader] of package [s3]: its [upload] method. *)
Record Uploader : Type := mkUploader {
  upload : list Request -> string -> string -> Reader -> option error
}.

(** The fields of [Config] that [folder.go] reads or writes. *)
Record Config : Type := mkConfig {
  Bucket : string;
  EnableVersioning : string;
  UseListObjectsV1 : bool;
  RangeBatchEnabled : bool;
  RangeMaxRetries : Z
}.

#[export] Instance Config_inhabited : Inhabited Config :=
  populate (mkConfig "" "" false false 0).

(** ** The world: requests issued so far and the store of [Config] objects *)

Definition loc := nat.

Record World : Type := mkWorld {
  trace : list Request;
  configs : gmap loc Config
}.

(** State passing: every operation maps a world to its result and the next
    world. *)
Definition M (A : Type) : Type := World -> A * World.

Definition ret {A : Type} (a : A) : M A := fun w => (a, w).

Definition bind {A B : Type} (m : M A) (k : A -> M B) : M B :=
  fun w => let (a, w') := m w in k a w'.

Notation "'do' x <- m 'in' k" := (bind m (fun x => k))
  (at level 10, x name, m at level 100, k at level 200,
   format "'[v' 'do'  x  <-  m  'in' '/' k ']'").

(** Send [req]; [respond] is the store's answer given the history. *)
Definition call {R : Type} (req : Request) (respond : list Request -> R) : M R :=
  fun w => (respond (trace w), mkWorld (trace w ++ [req]) (configs w)).

(** [*config]: a folder built by [NewFolder] holds a non-nil pointer, so the
    lookup is total. *)
Definition readConfig (l : loc) : M Config :=
  fun w => (configs w !!! l, w).

(** [config.EnableVersioning = v]. *)
Definition writeEnableVersioning (l : loc) (v : string) : M unit :=
  fun w =>
    let c := configs w !!! l in
    (tt, mkWorld (trace w)
           (<[l := mkConfig (Bucket c) v (UseListObjectsV1 c)
                            (RangeBatchEnabled c) (RangeMaxRetries c)]> (configs w))).

(** [for _, x := range xs { body }] with an accumulator. *)
Fixpoint forRange {A S : Type} (xs : list A) (body : A -> S -> M S) (s : S) : M S :=
  match xs with
  | [] => ret s
  | x :: xs' => do s' <- body x s in forRange xs' body s'
  end.

(** Package [storage]: the path helpers, which are not part of this file's
    sources. *)
Class StoragePaths : Type := mkStoragePaths {
  JoinPath : string -> string -> string;
  AddDelimiterToPath : string -> string
}.

(** [strings.TrimPrefix]. *)
Definition TrimPrefix (s prefix : string) : string :=
  if String.prefix prefix s
  then String.substring (String.length prefix) (String.length s - String.length prefix) s
  else s.

(** [errors.Wrapf(err, format, args...)] with the message already formatted. *)
Definition Wrapf (err : error) (message : string) : error := WrapError err message.

(** [fmt]'s [%s] of a [[]string]: the elements between brackets, separated
    by spaces. *)
Definition fmtStrings (part : list string) : string :=
  "[" +:+ String.concat " " part +:+ "]".

(** ** Package [s3] *)

Definition NotFoundAWSErrorCode : string := "NotFound".
Definition NoSuchKeyAWSErrorCode : string := "NoSuchKey".

Definition VersioningDefault : string := "".
Definition VersioningEnabled : string := "enabled".
Definition VersioningDisabled : string := "disabled".

Record Folder : Type := mkFolder {
  s3API : S3API;
  uploader : Uploader;
  bucket : string;
  path : string;
  config : loc
}.

(** The type assertion [err.(awserr.Error)] succeeds on [AwsError] only. *)
Definition isAwsNotExist (err : error) : bool :=
  match err with
  | AwsError code _ =>
      if String.eqb code NotFoundAWSErrorCode || String.eqb code NoSuchKeyAWSErrorCode
      then true else false
  | _ => false
  end.

Definition NewFolder `{StoragePaths}
    (api : S3API) (up : Uploader) (path : string) (config : loc) : M Folder :=
  let path := TrimPrefix path "/" in
  do cfg <- readConfig config in
  ret (mkFolder api up (Bucket cfg) (AddDelimiterToPath path) config).

Definition Exists (folder : Folder) (objectRelativePath : string)
  : M (bool * option error) :=
  let objectPath := path folder +:+ objectRelativePath in
  do err <- call (ReqHeadObject (bucket folder) objectPath)
              (fun h => HeadObject (s3API folder) h (bucket folder) objectPath) in
  match err with
  | Some err =>
      if isAwsNotExist err then ret (false, None)
      else ret (false, Some (Wrapf err
             ("failed to check s3 object '" +:+ objectPath +:+ "' existence")))
  | None => ret (true, None)
  end.

Definition PutObject (folder : Folder) (name : string) (content : Reader)
  : M (option error) :=
  call (ReqUpload (bucket folder) (path folder +:+ name) content)
    (fun h => upload (uploader folder) h (bucket folder) (path folder +:+ name) content).

Definition ReadObject (folder : Folder) (objectRelativePath : string)
  : M (Result Reader) :=
  let objectPath := path folder +:+ objectRelativePath in
  do r <- call (ReqGetObject (bucket folder) objectPath)
            (fun h => GetObject (s3API folder) h (bucket folder) objectPath) in
  match r with
  | Err err =>
      if isAwsNotExist err then ret (Err (ObjectNotFoundError objectPath))
      else ret (Err (Wrapf err
             ("failed to read object: '" +:+ objectPath +:+ "' from S3")))
  | Ok body =>
      do cfg <- readConfig (config folder) in
      if RangeBatchEnabled cfg
      then ret (Ok (RangeReader body objectPath (RangeMaxRetries cfg)))
      else ret (Ok body)
  end.


Definition GetPath (folder : Folder) : string := path folder.

Definition isVersioningEnabled (folder : Folder) : M bool :=
  do cfg <- readConfig (config folder) in
  if String.eqb (EnableVersioning cfg) VersioningEnabled then ret true
  else if String.eqb (EnableVersioning cfg) VersioningDisabled then ret false
  else if String.eqb (EnableVersioning cfg) VersioningDefault then
    do r <- call (ReqGetBucketVersioning (bucket folder))
              (fun h => GetBucketVersioning (s3API folder) h (bucket folder)) in
    match r with
    | Err _ => ret false
    | Ok result =>
        match Status result with
        | Some status =>
            if String.eqb status BucketVersioningStatusEnabled
            then do _ <- writeEnableVersioning (config folder) VersioningEnabled in
                 ret true
            else do _ <- writeEnableVersioning (config folder) VersioningDisabled in
                 ret false
        | None =>
            do _ <- writeEnableVersioning (config folder) VersioningDisabled in
            ret false
        end
    end
  else ret false.

Definition SetVersioningEnabled (folder : Folder) (enable : bool) : M unit :=
  do enabled <- (if enable then isVersioningEnabled folder else ret false) in
  if enabled
  then writeEnableVersioning (config folder) VersioningEnabled
  else writeEnableVersioning (config folder) VersioningDisabled.

(** The closure [listFunc] of [ListFolder]; the captured [objects] and
    [subFolders] are the accumulator. *)
Definition listFunc `{StoragePaths} (folder : Folder)
    (commonPrefixes : list string) (contents : list S3Object)
    (acc : list Object * list Folder) : M (list Object * list Folder) :=
  do subFolders <-
    forRange commonPrefixes (fun prefix subFolders =>
      do subFolder <- NewFolder (s3API folder) (uploader folder) prefix (config folder) in
      ret (subFolders ++ [subFolder])) (snd acc) in
  do objects <-
    forRange contents (fun object objects =>
      if String.eqb (soKey object) (path folder) then ret objects
      else
        let objectRelativePath := TrimPrefix (soKey object) (path folder) in
        ret (objects ++ [NewLocalObject objectRelativePath
                           (soLastModified object) (soSize object)])) (fst acc) in
  ret (objects, subFolders).

Definition listObjectsPagesV1 {S : Type} (folder : Folder)
    (prefix delimiter : string) (maxKeys : option Z)
    (listFunc : list string -> list S3Object -> S -> M S) (s : S)
  : M (S * option error) :=
  do r <- call (ReqListObjectsPages (bucket folder) prefix delimiter maxKeys)
            (fun h => ListObjectsPages (s3API folder) h (bucket folder)
                        prefix delimiter maxKeys) in
  do s' <- forRange (fst r)
             (fun files s => listFunc (loCommonPrefixes files) (loContents files) s) s in
  ret (s', snd r).

Definition listObjectsPagesV2 {S : Type} (folder : Folder)
    (prefix delimiter : string) (maxKeys : option Z)
    (listFunc : list string -> list S3Object -> S -> M S) (s : S)
  : M (S * option error) :=
  do r <- call (ReqListObjectsV2Pages (bucket folder) prefix delimiter maxKeys)
            (fun h => ListObjectsV2Pages (s3API folder) h (bucket folder)
                        prefix delimiter maxKeys) in
  do s' <- forRange (fst r)
             (fun files s => listFunc (loCommonPrefixes files) (loContents files) s) s in
  ret (s', snd r).

Definition listObjectsPages {S : Type} (folder : Folder)
    (prefix delimiter : string) (maxKeys : option Z)
    (listFunc : list string -> list S3Object -> S -> M S) (s : S)
  : M (S * option error) :=
  do cfg <- readConfig (config folder) in
  if UseListObjectsV1 cfg
  then listObjectsPagesV1 folder prefix delimiter maxKeys listFunc s
  else listObjectsPagesV2 folder prefix delimiter maxKeys listFunc s.

(** The closure [versionsListFunc] of [listVersions]. *)
Definition versionsListFunc `{StoragePaths} (folder : Folder)
    (out : ListObjectVersionsOutput)
    (acc : list Object * list Folder) : M (list Object * list Folder) :=
  do subFolders <-
    forRange (lvCommonPrefixes out) (fun prefix subFolders =>
      do subFolder <- NewFolder (s3API folder) (uploader folder) prefix (config folder) in
      ret (subFolders ++ [subFolder])) (snd acc) in
  do objects <-
    forRange (lvVersions out) (fun object objects =>
      if String.eqb (ovKey object) (path folder) then ret objects
      else
        let objectRelativePath := TrimPrefix (ovKey object) (path folder) in
        if ovIsLatest object
        then ret (objects ++ [NewLocalObjectWithAdditionalInfo objectRelativePath
                                (ovLastModified object) (ovSize object)
                                (ovVersionId object +:+ " LATEST")])
        else ret (objects ++ [NewLocalObjectWithAdditionalInfo objectRelativePath
                                (ovLastModified object) (ovSize object)
                                (ovVersionId object)])) (fst acc) in
  do objects <-
    forRange (lvDeleteMarkers out) (fun object objects =>
      if String.eqb (dmKey object) (path folder) then ret objects
      else
        let objectRelativePath := TrimPrefix (dmKey object) (path folder) in
        if dmIsLatest object
        then ret (objects ++ [NewLocalObjectWithAdditionalInfo objectRelativePath
                                (dmLastModified object) 0%Z
                                (dmVersionId object +:+ " LATEST")])
        else ret (objects ++ [NewLocalObjectWithAdditionalInfo objectRelativePath
                                (dmLastModified object) 0%Z
                                (dmVersionId object)])) objects in
  ret (objects, subFolders).

Definition listVersions `{StoragePaths} (folder : Folder) (prefix delimiter : string)
  : M (list Object * list Folder * option error) :=
  do r <- call (ReqListObjectVersionsPages (bucket folder) prefix delimiter)
            (fun h => ListObjectVersionsPages (s3API folder) h (bucket folder)
                        prefix delimiter) in
  do acc <- forRange (fst r) (versionsListFunc folder) ([], []) in
  match snd r with
  | Some err =>
      if negb (isAwsNotExist err)
      then ret ([], [], Some (Wrapf err
                  ("failed to list s3 folder: '" +:+ path folder +:+ "'")))
      else ret (fst acc, snd acc, None)
  | None => ret (fst acc, snd acc, None)
  end.

Definition ListFolder `{StoragePaths} (folder : Folder)
  : M (list Object * list Folder * option error) :=
  let prefix := path folder in
  let delimiter := "/" in
  do versioned <- isVersioningEnabled folder in
  if versioned then
    do r <- listVersions folder prefix delimiter in
    match snd r with
    | Some err => ret ([], [], Some err)
    | None => ret r
    end
  else
    do r <- listObjectsPages folder prefix delimiter None (listFunc folder) ([], []) in
    match snd r with
    | Some err =>
        if negb (isAwsNotExist err)
        then ret ([], [], Some (Wrapf err
                    ("failed to list s3 folder: '" +:+ path folder +:+ "'")))
        else ret (fst (fst r), snd (fst r), None)
    | None => ret (fst (fst r), snd (fst r), None)
    end.

(** Modelled from the spec: [partitionStrings], which [DeleteObjects] calls
    and which is not among the sources.  "Deletes in batches no larger than
    1000 keys per backend call"; "deleting 2500 keys issues exactly 3 backend
    batch calls with sizes 1000/1000/500": consecutive blocks of [blockSize]
    strings in list order, the last one holding the rest. *)
Fixpoint partitionFrom (fuel : nat) (strings : list string) (blockSize : nat)
  : list (list string) :=
  match fuel with
  | O => []
  | S fuel' =>
      match strings with
      | [] => []
      | _ => take blockSize strings :: partitionFrom fuel' (drop blockSize strings) blockSize
      end
  end.

Definition partitionStrings (strings : list string) (blockSize : nat)
  : list (list string) :=
  partitionFrom (length strings) strings blockSize.

Definition getObjectVersions (folder : Folder) (key : string)
  : M (Result (list ObjectIdentifier)) :=
  do r <- call (ReqListObjectVersions (bucket folder) (path folder +:+ key))
            (fun h => ListObjectVersions (s3API folder) h (bucket folder)
                        (path folder +:+ key)) in
  match r with
  | Err err => ret (Err err)
  | Ok out =>
      do list <- forRange (lvVersions out) (fun version list =>
                   ret (list ++ [mkObjectIdentifier (ovKey version)
                                   (Some (ovVersionId version))])) [] in
      do list <- forRange (lvDeleteMarkers out) (fun deleteMarker list =>
                   ret (list ++ [mkObjectIdentifier (dmKey deleteMarker)
                                   (Some (dmVersionId deleteMarker))])) list in
      ret (Ok list)
  end.

(** A failed version listing is logged and the loop goes on with no
    identifier for that key ([versions] is nil). *)
Definition partitionToObjects (folder : Folder) (keys : list string)
    (versioningEnabled : bool) : M (list ObjectIdentifier) :=
  forRange keys (fun key objects =>
    if versioningEnabled then
      do r <- getObjectVersions folder key in
      match r with
      | Err _ => ret (objects ++ [])
      | Ok versions => ret (objects ++ versions)
      end
    else ret (objects ++ [mkObjectIdentifier (path folder +:+ key) None])) [].

(** The loop of [DeleteObjects] over the parts; it returns at the first
    failed batch. *)
Fixpoint DeleteObjects_parts (folder : Folder) (needsVersioning : bool)
    (parts : list (list string)) : M (option error) :=
  match parts with
  | [] => ret None
  | part :: parts' =>
      do objects <- partitionToObjects folder part needsVersioning in
      do err <- call (ReqDeleteObjects (bucket folder) objects)
                  (fun h => DeleteObjectsAPI (s3API folder) h (bucket folder) objects) in
      match err with
      | Some err => ret (Some (Wrapf err
                      ("failed to delete s3 object: '" +:+ fmtStrings part +:+ "'")))
      | None => DeleteObjects_parts folder needsVersioning parts'
      end
  end.

Definition DeleteObjects (folder : Folder) (objectRelativePaths : list string)
  : M (option error) :=
  let parts := partitionStrings objectRelativePaths 1000 in
  do needsVersioning <- isVersioningEnabled folder in
  DeleteObjects_parts folder needsVersioning parts.

(** ** Package [copy] *)

(** Package [internal]: [ConfigureUploaderToFolder] and the uploader's
    [Upload], which are not part of this file's sources. *)
Class InternalUploads : Type := mkInternalUploads {
  InternalUploader : Type;
  ConfigureUploaderToFolder : Folder -> Result InternalUploader;
  Upload : InternalUploader -> string -> Reader -> M (option error)
}.

(** [SourceTransformerFunc]; the field of [InfoProvider] may be nil. *)
Definition SourceTransformerFunc : Type := Reader -> Result Reader.

Record InfoProvider : Type := mkInfoProvider {
  From : Folder;
  SourceTransformer : option SourceTransformerFunc;
  To : Folder;
  SrcObj : Object;
  targetName : string
}.

Definition NoopSourceTransformer : SourceTransformerFunc := fun r => Ok r.

Definition copyObject `{InternalUploads} (ch : InfoProvider) : M (option error) :=
  do r <- ReadObject (From ch) (GetName (SrcObj ch)) in
  match r with
  | Err err => ret (Some err)
  | Ok objReadCloser =>
      match
        match SourceTransformer ch with
        | Some transform => transform objReadCloser
        | None => Ok objReadCloser
        end
      with
      | Err err => ret (Some err)
      | Ok r =>
          match ConfigureUploaderToFolder (To ch) with
          | Err err => ret (Some err)
          | Ok uploader =>
              do err <- Upload uploader (targetName ch) r in
              match err with
              | Some err => ret (Some err)
              | None => ret None
              end
          end
      end
  end.

Definition BuildCopyingInfos (from to : Folder) (objects : list Object)
    (filter : Object -> bool) (renameFunc : Object -> string)
    (sourceTransformer : option SourceTransformerFunc) : list InfoProvider :=
  fold_left (fun infos object =>
    if filter object
    then infos ++ [mkInfoProvider from sourceTransformer to object (renameFunc object)]
    else infos) objects [].

(** *** [Infos]: the main thread, its goroutines and the two channels

    [Infos] starts one goroutine per job.  The threads are interleaved by the
    Go scheduler, so the function is embedded as a transition system: a
    [Thread] is chosen and takes its next step, if it is not blocked.  A send
    on a full channel and a receive on an empty one block; [wg.Wait] blocks
    while the counter is positive.  The call [handler.copyObject()] is one
    step of its goroutine; [len(errors) > 0] and the receive that follows it
    are one step of the main thread, the only receiver. *)

Definition maxParallelJobsCount : nat := 8.

(** Where a goroutine [func(handler InfoProvider)] stands. *)
Inductive Goroutine : Type :=
| GCopy (handler : InfoProvider)                        (* err := handler.copyObject() *)
| GTicket (handler : InfoProvider) (err : option error) (* tickets <- nil *)
| GError (handler : InfoProvider) (err : option error)  (* errors <- err *)
| GDone (handler : InfoProvider) (err : option error)   (* deferred wg.Done() *)
| GExit (handler : InfoProvider) (err : option error).

(** Where the caller of [Infos] stands. *)
Inductive Main : Type :=
| MRange (chs : list InfoProvider)                       (* for _, ch := range chs *)
| MDrain (ch : InfoProvider) (chs : list InfoProvider)   (* for len(errors) > 0 *)
| MAcquire (ch : InfoProvider) (chs : list InfoProvider) (* <-tickets; wg.Add(1); go *)
| MWait                                                  (* wg.Wait() *)
| MFinal                                                 (* for len(errors) > 0 *)
| MReturn (err : option error).

Record Sched : Type := mkSched {
  main : Main;
  goroutines : list Goroutine;
  tickets : nat;                  (* len(tickets), capacity 8 *)
  errors : list (option error);   (* the buffer of errors, capacity 16 *)
  wg : nat;
  world : World
}.

Inductive Thread : Type :=
| TMain
| TGo (i : nat).

(** After the first loop has filled [tickets]. *)
Definition Infos_start (chs : list InfoProvider) (w : World) : Sched :=
  mkSched (MRange chs) [] maxParallelJobsCount [] 0 w.

Definition stepMain (s : Sched) : option Sched :=
  match main s with
  | MRange [] =>
      Some (mkSched MWait (goroutines s) (tickets s) (errors s) (wg s) (world s))
  | MRange (ch :: chs) =>
      Some (mkSched (MDrain ch chs) (goroutines s) (tickets s) (errors s) (wg s) (world s))
  | MDrain ch chs =>
      match errors s with
      | [] =>
          Some (mkSched (MAcquire ch chs) (goroutines s) (tickets s) [] (wg s) (world s))
      | Some err :: q =>
          Some (mkSched (MReturn (Some err)) (goroutines s) (tickets s) q (wg s) (world s))
      | None :: q =>
          Some (mkSched (MDrain ch chs) (goroutines s) (tickets s) q (wg s) (world s))
      end
  | MAcquire ch chs =>
      match tickets s with
      | O => None
      | S n =>
          Some (mkSched (MRange chs) (goroutines s ++ [GCopy ch]) n (errors s)
                  (S (wg s)) (world s))
      end
  | MWait =>
      match wg s with
      | O => Some (mkSched MFinal (goroutines s) (tickets s) (errors s) 0 (world s))
      | S _ => None
      end
  | MFinal =>
      match errors s with
      | [] =>
          Some (mkSched (MReturn None) (goroutines s) (tickets s) [] (wg s) (world s))
      | Some err :: q =>
          Some (mkSched (MReturn (Some err)) (goroutines s) (tickets s) q (wg s) (world s))
      | None :: q =>
          Some (mkSched MFinal (goroutines s) (tickets s) q (wg s) (world s))
      end
  | MReturn _ => None
  end.

Definition stepGo `{InternalUploads} (i : nat) (s : Sched) : option Sched :=
  match goroutines s !! i with
  | None => None
  | Some (GCopy handler) =>
      let (err, w') := copyObject handler (world s) in
      Some (mkSched (main s) (<[i := GTicket handler err]> (goroutines s))
              (tickets s) (errors s) (wg s) w')
  | Some (GTicket handler err) =>
      if decide (tickets s < maxParallelJobsCount)
      then Some (mkSched (main s) (<[i := GError handler err]> (goroutines s))
                   (S (tickets s)) (errors s) (wg s) (world s))
      else None
  | Some (GError handler err) =>
      if decide (length (errors s) < maxParallelJobsCount * 2)
      then Some (mkSched (main s) (<[i := GDone handler err]> (goroutines s))
                   (tickets s) (errors s ++ [err]) (wg s) (world s))
      else None
  | Some (GDone handler err) =>
      Some (mkSched (main s) (<[i := GExit handler err]> (goroutines s))
              (tickets s) (errors s) (pred (wg s)) (world s))
  | Some (GExit _ _) => None
  end.

Definition step `{InternalUploads} (t : Thread) (s : Sched) : option Sched :=
  match t with
  | TMain => stepMain s
  | TGo i => stepGo i s
  end.

(** Run the threads in the order of [schedule]; [None] when the schedule
    picks a thread that cannot move. *)
Fixpoint steps `{InternalUploads} (schedule : list Thread) (s : Sched) : option Sched :=
  match schedule with
  | [] => Some s
  | t :: schedule' =>
      match step t s with
      | Some s' => steps schedule' s'
      | None => None
      end
  end.

(** What [Infos] has returned once [schedule] has run, if it has returned. *)
Definition Infos `{InternalUploads} (chs : list InfoProvider) (schedule : list Thread)
    (w : World) : option (option error) :=
  match steps schedule (Infos_start chs w) with
  | Some s => match main s with MReturn err => Some err | _ => None end
  | None => None
  end.

(** No thread of [s] can move. *)
Definition mainBlocked (s : Sched) : bool :=
  match stepMain s with None => true | Some _ => false end.

Definition goBlocked `{InternalUploads} (s : Sched) (i : nat) : bool :=
  match stepGo i s with None => true | Some _ => false end.

Definition stuck `{InternalUploads} (s : Sched) : bool :=
  mainBlocked s && forallb (goBlocked s) (seq 0 (length (goroutines s))).

(** ** The rest of package [s3] and of package [copy] *)

(** The context only cancels the upload. *)
Definition PutObjectWithContext (folder : Folder) (name : string) (content : Reader)
  : M (option error) :=
  call (ReqUpload (bucket folder) (path folder +:+ name) content)
    (fun h => upload (uploader folder) h (bucket folder) (path folder +:+ name) content).

(** [NoopRenameFunc]; a [storage.Object] is an interface value and may be
    nil. *)
Definition NoopRenameFunc (o : option Object) : string :=
  match o with
  | None => ""
  | Some o => GetName o
  end.

(** *** [CopyObject] and [Validate]

    The two requests these functions send, the server-side copy and the
    unpaged listing, are recorded beside the trace, each with the number of
    requests traced before it.  The store answers them from both records. *)
Inductive OtherRequest : Type :=
| ReqCopyObject (copySource bucket key : string)
| ReqListObjects (bucket prefix delimiter : string) (maxKeys : option Z).

Record WideWorld : Type := mkWideWorld {
  inner : World;
  others : list (nat * OtherRequest)
}.

Definition W (A : Type) : Type := WideWorld -> A * WideWorld.

(** An operation of the folder run in the wide world. *)
Definition within {A : Type} (m : M A) : W A :=
  fun ww => let (a, w') := m (inner ww) in (a, mkWideWorld w' (others ww)).

(** [s3iface.S3API], its methods [CopyObject] and [ListObjects]. *)
Class OtherAPI : Type := mkOtherAPI {
  CopyObjectAPI :
    list Request -> list (nat * OtherRequest) -> string -> string -> string ->
    option error;
  ListObjectsAPI :
    list Request -> list (nat * OtherRequest) -> string -> string -> string ->
    option Z -> option error
}.

Definition callOther {R : Type} (req : OtherRequest)
    (respond : list Request -> list (nat * OtherRequest) -> R) : W R :=
  fun ww =>
    (respond (trace (inner ww)) (others ww),
     mkWideWorld (inner ww) (others ww ++ [(length (trace (inner ww)), req)])).

(** Go's library: [path.Join] and the [Error] method of an error. *)
Class GoLibrary : Type := mkGoLibrary {
  pathJoin : list string -> string;
  errorString : error -> string
}.

Definition CopyObject `{OtherAPI} `{GoLibrary} (folder : Folder) (srcPath dstPath : string)
  : W (option error) :=
  fun ww =>
    let (r, ww1) := within (Exists folder srcPath) ww in
    let (exists_, err) := r in
    if negb exists_ then
      match err with
      | None => (Some (ObjectNotFoundError srcPath), ww1)
      | Some err => (Some err, ww1)
      end
    else
      let source := pathJoin [bucket folder; path folder; srcPath] in
      let dst := pathJoin [path folder; dstPath] in
      callOther (ReqCopyObject source (bucket folder) dst)
        (fun h o => CopyObjectAPI h o source (bucket folder) dst) ww1.

(** [fmt.Errorf] makes a new error: the cause is kept as text only. *)
Definition Validate `{OtherAPI} `{GoLibrary} (folder : Folder) : W (option error) :=
  fun ww =>
    let prefix := path folder in
    let delimiter := "/" in
    let int64One := 1%Z in
    let (err, ww1) :=
      callOther (ReqListObjects (bucket folder) prefix delimiter (Some int64One))
        (fun h o => ListObjectsAPI h o (bucket folder) prefix delimiter (Some int64One))
        ww in
    match err with
    | Some err => (Some (PlainError ("bad credentials: " +:+ errorString err)), ww1)
    | None => (None, ww1)
    end.

(** ** Vocabulary of the properties *)

(** The versioning mode a folder sees in a world. *)
Definition modeOf (folder : Folder) (w : World) : string :=
  EnableVersioning (configs w !!! config folder).

(** Whether the store, asked now, reports the bucket as versioned. *)
Definition reportsEnabled (folder : Folder) (w : World) : bool :=
  match GetBucketVersioning (s3API folder) (trace w) (bucket folder) with
  | Ok (mkGetBucketVersioningOutput (Some status)) =>
      String.eqb status BucketVersioningStatusEnabled
  | _ => false
  end.

(** A leaf entry of a listing page, on either listing path. *)
Inductive Entry : Type :=
| EPlain (o : S3Object)
| EVersion (v : ObjectVersion)
| EMarker (d : DeleteMarkerEntry).

Definition entryKey (e : Entry) : string :=
  match e with
  | EPlain o => soKey o
  | EVersion v => ovKey v
  | EMarker d => dmKey d
  end.

(** The leaf entries of the pages of a plain listing, in the order listed. *)
Definition plainEntries (pages : list ListObjectsOutput) : list Entry :=
  flat_map (fun files => map EPlain (loContents files)) pages.

(** The leaf entries of the pages of a version-aware listing: on each page
    the versions, then the delete markers. *)
Definition versionEntries (pages : list ListObjectVersionsOutput) : list Entry :=
  flat_map (fun out => map EVersion (lvVersions out) ++ map EMarker (lvDeleteMarkers out))
    pages.

(** The entry is not the folder's own prefix. *)
Definition notSelf (folder : Folder) (e : Entry) : bool :=
  negb (String.eqb (entryKey e) (path folder)).

(** The [Object] reported for an entry. *)
Definition entryObject (folder : Folder) (e : Entry) : Object :=
  let name := TrimPrefix (entryKey e) (path folder) in
  match e with
  | EPlain o => mkObject name (soLastModified o) (soSize o) ""
  | EVersion v =>
      mkObject name (ovLastModified v) (ovSize v)
        (if ovIsLatest v then ovVersionId v +:+ " LATEST" else ovVersionId v)
  | EMarker d =>
      mkObject name (dmLastModified d) 0%Z
        (if dmIsLatest d then dmVersionId d +:+ " LATEST" else dmVersionId d)
  end.

(** The sub-folder built for a common prefix. *)
Definition subFolderOf `{StoragePaths} (folder : Folder) (w : World) (prefix : string)
  : Folder :=
  mkFolder (s3API folder) (uploader folder) (Bucket (configs w !!! config folder))
    (AddDelimiterToPath (TrimPrefix prefix "/")) (config folder).

(** The request of the plain listing, by the configured API version. *)
Definition plainListRequest (folder : Folder) (w : World) : Request :=
  if UseListObjectsV1 (configs w !!! config folder)
  then ReqListObjectsPages (bucket folder) (path folder) "/" None
  else ReqListObjectsV2Pages (bucket folder) (path folder) "/" None.

(** The store's answer to the plain listing. *)
Definition plainListAnswer (folder : Folder) (w : World)
  : list ListObjectsOutput * option error :=
  if UseListObjectsV1 (configs w !!! config folder)
  then ListObjectsPages (s3API folder) (trace w) (bucket folder) (path folder) "/" None
  else ListObjectsV2Pages (s3API folder) (trace w) (bucket folder) (path folder) "/" None.

(** What both listing paths make of the store's error. *)
Definition listingError (folder : Folder) (err : option error) : option error :=
  match err with
  | Some err =>
      if isAwsNotExist err then None
      else Some (Wrapf err ("failed to list s3 folder: '" +:+ path folder +:+ "'"))
  | None => None
  end.

(** The listing request [ListFolder] sends once the mode is known. *)
Definition listingRequest (folder : Folder) (versioned : bool) (w : World) : Request :=
  if versioned
  then ReqListObjectVersionsPages (bucket folder) (path folder) "/"
  else plainListRequest folder w.

(** The store's answer to it: leaf entries, common prefixes and error. *)
Definition listingAnswer (folder : Folder) (versioned : bool) (w : World)
  : list Entry * list string * option error :=
  if versioned then
    let r := ListObjectVersionsPages (s3API folder) (trace w) (bucket folder)
               (path folder) "/" in
    (versionEntries (fst r), flat_map lvCommonPrefixes (fst r), snd r)
  else
    let r := plainListAnswer folder w in
    (plainEntries (fst r), flat_map loCommonPrefixes (fst r), snd r).

(** The leaf entries the store lists to a call of [ListFolder] in [w]. *)
Definition listedEntries (folder : Folder) (w : World) : list Entry :=
  let r := isVersioningEnabled folder w in
  fst (fst (listingAnswer folder (fst r) (snd r))).

Definition entryVersionId (e : Entry) : string :=
  match e with
  | EPlain _ => ""
  | EVersion v => ovVersionId v
  | EMarker d => dmVersionId d
  end.

Definition entryIsLatest (e : Entry) : bool :=
  match e with
  | EPlain _ => false
  | EVersion v => ovIsLatest v
  | EMarker d => dmIsLatest d
  end.

(** The property of a returned [Object] with respect to the revision it was
    built from: the tag says whether the revision is the latest one, and a
    delete marker has size 0. *)
Definition versionTagged (e : Entry) (o : Object) : Prop :=
  (GetAdditionalInfo o = entryVersionId e +:+ " LATEST" <-> entryIsLatest e = true)
  /\ (GetAdditionalInfo o = entryVersionId e <-> entryIsLatest e = false)
  /\ match e with
     | EPlain _ => False
     | EVersion v => GetSize o = ovSize v
     | EMarker _ => GetSize o = 0%Z
     end.

(** The store's not-found condition: an AWS error with code [NotFound] or
    [NoSuchKey]. *)
Definition NotFoundSignal (err : error) : Prop :=
  exists message,
    err = AwsError "NotFound" message \/ err = AwsError "NoSuchKey" message.

(** The identifier sent for a key when versioning is not in use, and the
    batch request built from a part. *)
Definition unversionedId (folder : Folder) (key : string) : ObjectIdentifier :=
  mkObjectIdentifier (path folder +:+ key) None.

Definition unversionedBatch (folder : Folder) (part : list string) : Request :=
  ReqDeleteObjects (bucket folder) (map (unversionedId folder) part).

(** The version listing [getObjectVersions] sends for a key. *)
Definition listVersionsRequest (folder : Folder) (key : string) : Request :=
  ReqListObjectVersions (bucket folder) (path folder +:+ key).

(** One identifier per listed revision: the versions, then the delete
    markers. *)
Definition revisionIds (out : ListObjectVersionsOutput) : list ObjectIdentifier :=
  map (fun v => mkObjectIdentifier (ovKey v) (Some (ovVersionId v))) (lvVersions out)
  ++ map (fun d => mkObjectIdentifier (dmKey d) (Some (dmVersionId d)))
       (lvDeleteMarkers out).

(** The identifiers the store lists for [key] when asked after the requests
    [h]; none if the listing fails. *)
Definition resolvedIds (folder : Folder) (h : list Request) (key : string)
  : list ObjectIdentifier :=
  match ListObjectVersions (s3API folder) h (bucket folder) (path folder +:+ key) with
  | Ok out => revisionIds out
  | Err _ => []
  end.

(** The identifiers resolved for the keys of a part, one listing after the
    other, starting after the requests [h]. *)
Fixpoint versionedIds (folder : Folder) (h : list Request) (keys : list string)
  : list ObjectIdentifier :=
  match keys with
  | [] => []
  | key :: keys' =>
      resolvedIds folder h key
      ++ versionedIds folder (h ++ [listVersionsRequest folder key]) keys'
  end.

(** The identifiers of the batch built from a part, in either mode. *)
Definition batchIds (folder : Folder) (versioned : bool) (h : list Request)
    (part : list string) : list ObjectIdentifier :=
  if versioned then versionedIds folder h part else map (unversionedId folder) part.

(** The listings sent while a batch is built. *)
Definition batchListings (folder : Folder) (versioned : bool) (part : list string)
  : list Request :=
  if versioned then map (listVersionsRequest folder) part else [].

(** The identifier lists of the batch-delete calls in a trace. *)
Definition deleteCalls (tr : list Request) : list (list ObjectIdentifier) :=
  flat_map (fun req => match req with
                       | ReqDeleteObjects _ objects => [objects]
                       | _ => []
                       end) tr.

(** The message of a failed batch. *)
Definition batchFailure (err : error) (part : list string) : error :=
  WrapError err ("failed to delete s3 object: '" +:+ fmtStrings part +:+ "'").

(** What the loop of [DeleteObjects] does on [parts] after the requests [h]:
    the requests it issues and what it returns.  Each part contributes its
    listings and one batch-delete call; the loop ends after the last part or
    at the first call the store fails. *)
Inductive PartsRun (folder : Folder) (versioned : bool)
  : list Request -> list (list string) -> list Request -> option error -> Prop :=
| PartsRun_done (h : list Request) :
    PartsRun folder versioned h [] [] None
| PartsRun_fail (h : list Request) (part : list string) (parts : list (list string))
    (err : error) :
    DeleteObjectsAPI (s3API folder) (h ++ batchListings folder versioned part)
      (bucket folder) (batchIds folder versioned h part) = Some err ->
    PartsRun folder versioned h (part :: parts)
      (batchListings folder versioned part
       ++ [ReqDeleteObjects (bucket folder) (batchIds folder versioned h part)])
      (Some (batchFailure err part))
| PartsRun_next (h : list Request) (part : list string) (parts : list (list string))
    (issued : list Request) (r : option error) :
    DeleteObjectsAPI (s3API folder) (h ++ batchListings folder versioned part)
      (bucket folder) (batchIds folder versioned h part) = None ->
    PartsRun folder versioned
      (h ++ batchListings folder versioned part
         ++ [ReqDeleteObjects (bucket folder) (batchIds folder versioned h part)])
      parts issued r ->
    PartsRun folder versioned h (part :: parts)
      (batchListings folder versioned part
       ++ ReqDeleteObjects (bucket folder) (batchIds folder versioned h part) :: issued)
      r.


(** The job a goroutine runs, the value its [copyObject] returned once it
    has run, whether it has sent that value on [errors], and whether
    [wg.Done] is still to come. *)
Definition gHandler (g : Goroutine) : InfoProvider :=
  match g with
  | GCopy h | GTicket h _ | GError h _ | GDone h _ | GExit h _ => h
  end.

Definition gResult (g : Goroutine) : option (option error) :=
  match g with
  | GCopy _ => None
  | GTicket _ err | GError _ err | GDone _ err | GExit _ err => Some err
  end.

Definition gSent (g : Goroutine) : bool :=
  match g with
  | GDone _ _ | GExit _ _ => true
  | _ => false
  end.

Definition gLive (g : Goroutine) : bool :=
  match g with
  | GExit _ _ => false
  | _ => true
  end.

(** The jobs started so far with the outcome of their copy. *)
Definition jobResults (s : Sched) : list (InfoProvider * option (option error)) :=
  map (fun g => (gHandler g, gResult g)) (goroutines s).

(** The jobs the main thread has still to start. *)
Definition pending (m : Main) : list InfoProvider :=
  match m with
  | MRange chs => chs
  | MDrain ch chs | MAcquire ch chs => ch :: chs
  | _ => []
  end.

(** The non-nil values in the buffer of [errors], and the non-nil values
    the goroutines have sent. *)
Definition failures (q : list (option error)) : list error :=
  flat_map (fun err => match err with Some e => [e] | None => [] end) q.

Definition sentFailures (gs : list Goroutine) : list error :=
  flat_map (fun g => if gSent g
                     then match gResult g with Some (Some e) => [e] | _ => [] end
                     else []) gs.

(** The invariant of a run of [Infos chs]: [wg] counts the goroutines that
    have not called [wg.Done]; every non-nil value in the buffer was sent by
    a goroutine whose copy returned it; a recorded result is what
    [copyObject] returned; the jobs are started in list order; and until the
    main thread returns it has received no non-nil value. *)
Definition SchedInv `{InternalUploads} (chs : list InfoProvider) (s : Sched) : Prop :=
  wg s = length (List.filter gLive (goroutines s))
  /\ (forall e, In (Some e) (errors s) ->
        exists g, In g (goroutines s) /\ gResult g = Some (Some e))
  /\ Forall (fun g => forall r, gResult g = Some r ->
               exists w0, fst (copyObject (gHandler g) w0) = r) (goroutines s)
  /\ (exists rest, map gHandler (goroutines s) ++ rest = chs)
  /\ match main s with
     | MReturn None =>
         map gHandler (goroutines s) = chs
         /\ Forall (fun g => g = GExit (gHandler g) None) (goroutines s)
     | MReturn (Some e) =>
         exists g, In g (goroutines s) /\ gResult g = Some (Some e)
     | m =>
         map gHandler (goroutines s) ++ pending m = chs
         /\ length (failures (errors s)) = length (sentFailures (goroutines s))
         /\ (m = MFinal -> wg s = 0)
     end.

(** A goroutine holds a ticket until it has sent on [tickets]. *)
Definition gHolding (g : Goroutine) : bool :=
  match g with
  | GCopy _ | GTicket _ _ => true
  | _ => false
  end.

(** The tickets are either in the channel or held by a goroutine, and the
    buffer of [errors] holds no more values than were sent. *)
Definition ChannelInv (s : Sched) : Prop :=
  tickets s + length (List.filter gHolding (goroutines s)) = maxParallelJobsCount
  /\ length (errors s) <= length (List.filter gSent (goroutines s)).

(** The steps a thread has left, counting for each goroutine the receive of
    the value it sends. *)
Definition gSteps (g : Goroutine) : nat :=
  match g with
  | GCopy _ => 5
  | GTicket _ _ => 4
  | GError _ _ => 3
  | GDone _ _ => 1
  | GExit _ _ => 0
  end.

Definition mainSteps (m : Main) : nat :=
  match m with
  | MRange chs => 8 * length chs + 3
  | MDrain _ chs => 8 * length chs + 10
  | MAcquire _ chs => 8 * length chs + 9
  | MWait => 2
  | MFinal => 1
  | MReturn _ => 0
  end.

Definition stepsLeft (s : Sched) : nat :=
  mainSteps (main s) + list_sum (map gSteps (goroutines s)) + length (errors s).

(** ** Concrete stores, folders and worlds used by the examples *)

(** Modelled from the spec: [storage.AddDelimiterToPath] and
    [storage.JoinPath], which are not among the sources.  "The stored prefix
    always ends with a path delimiter"; a sub-folder's prefix is
    "prefix + relativePath + '/'". *)
Definition specAddDelimiterToPath (p : string) : string :=
  if String.eqb (String.substring (String.length p - 1) 1 p) "/" then p else p +:+ "/".

Definition specJoinPath (a b : string) : string := a +:+ b.

Definition specPaths : StoragePaths :=
  mkStoragePaths specJoinPath specAddDelimiterToPath.

(** A store that answers every request with success and empty listings,
    except for the answers given as arguments. *)
Definition exampleAPI
    (head : string -> option error)
    (get : string -> Result Reader)
    (pages : list ListObjectsOutput * option error)
    (versionPages : list ListObjectVersionsOutput * option error)
    (versions : list Request -> string -> Result ListObjectVersionsOutput)
    (delete : list Request -> list ObjectIdentifier -> option error)
    (versioning : Result GetBucketVersioningOutput) : S3API :=
  mkS3API
    (fun _ _ key => head key)
    (fun _ _ key => get key)
    (fun _ _ _ _ _ => pages)
    (fun _ _ _ _ _ => pages)
    (fun _ _ _ _ => versionPages)
    (fun h _ prefix => versions h prefix)
    (fun h _ objects => delete h objects)
    (fun _ _ => versioning).

Definition noVersions : ListObjectVersionsOutput :=
  mkListObjectVersionsOutput [] [] [].

Definition exampleUploader : Uploader := mkUploader (fun _ _ _ _ => None).

Definition exampleConfig (versioning : string) : Config :=
  mkConfig "bucket" versioning false false 0.

Definition exampleWorld (versioning : string) : World :=
  mkWorld [] {[ 0 := exampleConfig versioning ]}.

Definition exampleFolder (api : S3API) : Folder :=
  mkFolder api exampleUploader "bucket" "base/" 0.

(** The bucket reports versioning as enabled; everything else is empty. *)
Definition enabledAPI : S3API :=
  exampleAPI (fun _ => None) (fun _ => Ok (Body "")) ([], None) ([], None)
    (fun _ _ => Ok noVersions) (fun _ _ => None)
    (Ok (mkGetBucketVersioningOutput (Some "Enabled"))).

(** The versioning query fails with a plain error. *)
Definition brokenVersioningAPI : S3API :=
  exampleAPI (fun _ => None) (fun _ => Ok (Body ""))
    ([mkListObjectsOutput ["base/sub/"]
        [mkS3Object "base/" 1%Z 0%Z; mkS3Object "base/a" 2%Z 10%Z]], None)
    ([], None)
    (fun _ _ => Ok noVersions) (fun _ _ => None)
    (Err (PlainError "timeout")).

(** A version-aware listing: the folder's own prefix as a marker, two
    revisions of [base/a] and a delete marker for [base/b]. *)
Definition versionedListingAPI : S3API :=
  exampleAPI (fun _ => None) (fun _ => Ok (Body "")) ([], None)
    ([mkListObjectVersionsOutput ["base/sub/"]
        [mkObjectVersion "base/" "v0" true 1%Z 0%Z;
         mkObjectVersion "base/a" "v2" true 3%Z 7%Z;
         mkObjectVersion "base/a" "v1" false 2%Z 5%Z]
        [mkDeleteMarkerEntry "base/b" "d1" true 4%Z]], None)
    (fun _ _ => Ok noVersions) (fun _ _ => None)
    (Ok (mkGetBucketVersioningOutput (Some "Enabled"))).

(** [HeadObject] and [GetObject] fail: not found for [base/missing], access
    denied for every other key. *)
Definition failingReadAPI : S3API :=
  exampleAPI
    (fun key => if String.eqb key "base/missing"
                then Some (AwsError "NotFound" "Not Found")
                else Some (AwsError "AccessDenied" "Access Denied"))
    (fun key => if String.eqb key "base/missing"
                then Err (AwsError "NoSuchKey" "The specified key does not exist.")
                else Err (AwsError "AccessDenied" "Access Denied"))
    ([], None) ([], None)
    (fun _ _ => Ok noVersions) (fun _ _ => None)
    (Ok (mkGetBucketVersioningOutput None)).

(** The revisions of [base/a] in the examples. *)
Definition revisionsOfA : ListObjectVersionsOutput :=
  mkListObjectVersionsOutput []
    [mkObjectVersion "base/a" "v2" true 3%Z 7%Z;
     mkObjectVersion "base/a" "v1" false 2%Z 5%Z]
    [mkDeleteMarkerEntry "base/a" "d0" false 1%Z].

(** Every version listing succeeds and lists the revisions of [base/a]. *)
Definition listingAPI : S3API :=
  exampleAPI (fun _ => None) (fun _ => Ok (Body "")) ([], None) ([], None)
    (fun _ _ => Ok revisionsOfA) (fun _ _ => None)
    (Ok (mkGetBucketVersioningOutput (Some "Enabled"))).

(** The first version listing fails (the store is throttling); every later
    one lists the revisions of [base/a]. *)
Definition flakyListingAPI : S3API :=
  exampleAPI (fun _ => None) (fun _ => Ok (Body "")) ([], None) ([], None)
    (fun h _ => match h with
                | [] => Err (AwsError "SlowDown" "Please reduce your request rate.")
                | _ => Ok revisionsOfA
                end)
    (fun _ _ => None)
    (Ok (mkGetBucketVersioningOutput (Some "Enabled"))).

(** A listing by prefix, as the store answers it: asked for [base/a] it
    lists the revisions of [base/a] and of [base/ab]. *)
Definition prefixListingAPI : S3API :=
  exampleAPI (fun _ => None) (fun _ => Ok (Body "")) ([], None) ([], None)
    (fun _ prefix =>
       if String.eqb prefix "base/a"
       then Ok (mkListObjectVersionsOutput []
                  [mkObjectVersion "base/a" "v1" true 1%Z 5%Z;
                   mkObjectVersion "base/ab" "w1" true 2%Z 6%Z] [])
       else Ok noVersions)
    (fun _ _ => None)
    (Ok (mkGetBucketVersioningOutput (Some "Enabled"))).

(** [n] keys of the same width, [k1000], [k1001], ...: none is a prefix of
    another. *)
Definition keyNames (n : nat) : list string :=
  map (fun i => "k" +:+ pretty (1000 + i)) (seq 0 n).

(** The 2500 keys of the spec's example. *)
Definition manyKeys : list string := keyNames 2500.

(** A versioned bucket in which every key has two revisions: asked for a
    key, the store lists the current version and an older one. *)
Definition twoRevisionsAPI : S3API :=
  exampleAPI (fun _ => None) (fun _ => Ok (Body "")) ([], None) ([], None)
    (fun _ prefix =>
       Ok (mkListObjectVersionsOutput []
             [mkObjectVersion prefix "v2" true 2%Z 5%Z;
              mkObjectVersion prefix "v1" false 1%Z 5%Z] []))
    (fun _ _ => None)
    (Ok (mkGetBucketVersioningOutput (Some "Enabled"))).

(** The second batch-delete call fails. *)
Definition secondBatchFailsAPI : S3API :=
  exampleAPI (fun _ => None) (fun _ => Ok (Body "")) ([], None) ([], None)
    (fun _ _ => Ok noVersions)
    (fun h _ => match deleteCalls h with
                | [_] => Some (AwsError "InternalError" "We encountered an internal error.")
                | _ => None
                end)
    (Ok (mkGetBucketVersioningOutput None)).

(** Modelled from the spec: [internal.ConfigureUploaderToFolder] and the
    uploader's [Upload], which are not among the sources.  "Stream the
    (possibly transformed) result into the destination Folder under the
    job's target name": the uploader of a folder puts the object into it. *)
Definition specUploads : InternalUploads :=
  mkInternalUploads Folder (fun folder => Ok folder)
    (fun folder name content => PutObject folder name content).

(** A job that copies [base/a] to [copy/a]; with [enabledAPI] the read and
    the upload both succeed. *)
Definition exampleJob : InfoProvider :=
  mkInfoProvider (exampleFolder enabledAPI) None
    (mkFolder enabledAPI exampleUploader "bucket" "copy/" 0)
    (mkObject "a" 1%Z 3%Z "") "a".

Definition seventeenJobs : list InfoProvider := repeat exampleJob 17.

(** The main thread starts a job: loop head, drain, ticket and [go]. *)
Definition startJob : list Thread := [TMain; TMain; TMain].

(** Goroutine [i] copies its object and releases its ticket. *)
Definition work (i : nat) : list Thread := [TGo i; TGo i].

(** Goroutine [i] sends its result and calls [wg.Done]. *)
Definition finish (i : nat) : list Thread := [TGo i; TGo i].

(** A schedule for seventeen jobs in which every goroutine is preempted
    between [tickets <- nil] and [errors <- err] until the main thread has
    started the last job and waits in [wg.Wait]. *)
Definition deadlockSchedule : list Thread :=
  concat (repeat startJob 8) ++ flat_map work (seq 0 8)
  ++ concat (repeat startJob 8) ++ flat_map work (seq 8 8)
  ++ startJob ++ [TMain] ++ work 16
  ++ flat_map finish (seq 0 16).

(** The plain listing delivers one page and then fails: with [NoSuchKey] in
    the first store, with [AccessDenied] in the second. *)
Definition pageOfA : ListObjectsOutput :=
  mkListObjectsOutput ["base/sub/"] [mkS3Object "base/a" 2%Z 10%Z].

Definition missingPrefixAPI : S3API :=
  exampleAPI (fun _ => None) (fun _ => Ok (Body ""))
    ([pageOfA], Some (AwsError "NoSuchKey" "The specified key does not exist."))
    ([], None) (fun _ _ => Ok noVersions) (fun _ _ => None)
    (Ok (mkGetBucketVersioningOutput None)).

Definition deniedListingAPI : S3API :=
  exampleAPI (fun _ => None) (fun _ => Ok (Body ""))
    ([pageOfA], Some (AwsError "AccessDenied" "Access Denied"))
    ([], None) (fun _ _ => Ok noVersions) (fun _ _ => None)
    (Ok (mkGetBucketVersioningOutput None)).

(** A job whose source object does not exist, and one the store refuses to
    hand out. *)
Definition missingJob : InfoProvider :=
  mkInfoProvider (exampleFolder failingReadAPI) None
    (mkFolder enabledAPI exampleUploader "bucket" "copy/" 0)
    (mkObject "missing" 1%Z 3%Z "") "missing".

(** A transformer that rejects every source. *)
Definition rejectingTransformer : SourceTransformerFunc :=
  fun _ => Err (PlainError "unsupported source").

Definition rejectedJob : InfoProvider :=
  mkInfoProvider (exampleFolder enabledAPI) (Some rejectingTransformer)
    (mkFolder enabledAPI exampleUploader "bucket" "copy/" 0)
    (mkObject "a" 1%Z 3%Z "") "a".

(** The run of [Infos] in which every goroutine finishes before the main
    thread moves on; [i] is the index of the next goroutine and [drained]
    tells whether the buffer of [errors] is empty.  After its goroutine has
    exited the main thread finds the job's result in the buffer. *)
Fixpoint oneByOne `{InternalUploads} (i : nat) (drained : bool)
    (chs : list InfoProvider) (w : World) : list Thread :=
  match chs with
  | [] => [TMain; TMain] ++ (if drained then [] else [TMain]) ++ [TMain]
  | ch :: rest =>
      [TMain] ++ (if drained then [] else [TMain]) ++ [TMain; TMain]
      ++ [TGo i; TGo i; TGo i; TGo i]
      ++ match copyObject ch w with
         | (Some _, _) =>
             match rest with
             | [] => [TMain; TMain; TMain]
             | _ :: _ => [TMain; TMain]
             end
         | (None, w') => oneByOne (S i) false rest w'
         end
  end.

(** The jobs copied one after the other until one fails. *)
Fixpoint copyInOrder `{InternalUploads} (chs : list InfoProvider) (w : World)
  : option error :=
  match chs with
  | [] => None
  | ch :: rest =>
      match copyObject ch w with
      | (Some err, _) => Some err
      | (None, w') => copyInOrder rest w'
      end
  end.

(** [Infos] has returned while a goroutine is still copying. *)
Definition returnedEarly : Sched :=
  mkSched (MReturn (Some (PlainError "unsupported source")))
    [GExit rejectedJob (Some (PlainError "unsupported source")); GCopy exampleJob]
    7 [] 1 (exampleWorld VersioningDisabled).

(** A store that copies and lists without error. *)
Definition exampleOther : OtherAPI :=
  mkOtherAPI (fun _ _ _ _ _ => None) (fun _ _ _ _ _ _ => None).

(** Go's [path] package for the examples.  The elements of a path are the
    strings between its slashes. *)
Fixpoint pathElements (p : string) : list string :=
  match p with
  | EmptyString => [""]
  | String c p' =>
      if String.eqb (String c "") "/"
      then "" :: pathElements p'
      else match pathElements p' with
           | e :: es => String c e :: es
           | [] => [String c ""]
           end
  end.

(** One element in the loop of [path.Clean]: an empty element and [.] are
    dropped; [..] removes the element before it, is kept at the front of a
    path that is not rooted and dropped at the root; every other element is
    appended. *)
Definition cleanElement (rooted : bool) (out : list string) (e : string)
  : list string :=
  if String.eqb e "" || String.eqb e "." then out
  else if String.eqb e ".." then
    match last out with
    | Some previous =>
        if String.eqb previous ".." then out ++ [".."] else removelast out
    | None => if rooted then out else out ++ [".."]
    end
  else out ++ [e].

(** [path.Clean]: the empty string and a path without elements become [.];
    a rooted path keeps its leading slash. *)
Definition pathClean (p : string) : string :=
  if String.eqb p "" then "."
  else
    let rooted := String.prefix "/" p in
    let out := String.concat "/" (fold_left (cleanElement rooted) (pathElements p) []) in
    if rooted then "/" +:+ out
    else if String.eqb out "" then "." else out.

(** [path.Join]: the elements are joined by slashes, empty ones at the front
    are skipped, and the result is cleaned; no element at all, or empty ones
    only, give the empty string. *)
Definition goPathJoin (elem : list string) : string :=
  if forallb (fun e => String.eqb e "") elem then ""
  else
    pathClean
      (fold_left (fun buf e =>
                    if negb (String.eqb buf "") then buf +:+ "/" +:+ e
                    else if negb (String.eqb e "") then e
                    else buf) elem "").

(** The [Error] method: [awserr] prints code and message, [errors.Wrapf]
    its message before the cause.  Modelled from the spec: the text of
    [storage.NewObjectNotFoundError], which is not among the sources, says
    "object not found" of its path. *)
Fixpoint goErrorString (err : error) : string :=
  match err with
  | AwsError code message => code +:+ ": " +:+ message
  | PlainError message => message
  | WrapError cause message => message +:+ ": " +:+ goErrorString cause
  | ObjectNotFoundError path => "object '" +:+ path +:+ "' not found in storage"
  end.

Definition exampleLibrary : GoLibrary :=
  mkGoLibrary goPathJoin goErrorString.

(** [HeadObject] is denied for [base/hidden] only and [GetObject] for
    [base/locked] only. *)
Definition splitFailuresAPI : S3API :=
  exampleAPI
    (fun key => if String.eqb key "base/hidden"
                then Some (AwsError "AccessDenied" "Access Denied") else None)
    (fun key => if String.eqb key "base/locked"
                then Err (AwsError "AccessDenied" "Access Denied") else Ok (Body ""))
    ([], None) ([], None)
    (fun _ _ => Ok noVersions) (fun _ _ => None)
    (Ok (mkGetBucketVersioningOutput None)).

Definition sixteenJobs : list InfoProvider := repeat exampleJob 16.

(** Sixteen jobs scheduled as in [deadlockSchedule]: every goroutine has
    copied its object and released its ticket, none has sent its result yet,
    and the main thread has reached [wg.Wait]. *)
Definition waitingSchedule : list Thread :=
  concat (repeat startJob 8) ++ flat_map work (seq 0 8)
  ++ concat (repeat startJob 8) ++ flat_map work (seq 8 8)
  ++ [TMain].

(** Every goroutine sends its result and exits; the main thread then leaves
    [wg.Wait], drains the sixteen results and returns. *)
Definition drainSchedule : list Thread :=
  flat_map finish (seq 0 16) ++ repeat TMain 18.

(** Eight jobs are started and hold all tickets; the first goroutine copies
    and returns its ticket, the second has copied and still holds its own. *)
Definition busySchedule : list Thread :=
  concat (repeat startJob 8) ++ work 0 ++ [TGo 1].


(** * Properties *)

Ltac unfold_monad :=
  unfold bind, ret, call, readConfig, writeEnableVersioning in *; simpl in *.

(** ** Loops and lists *)

Section Loops.

Context {A S : Type}.

(** A loop whose body leaves the world alone is a fold. *)
Lemma forRange_pure (xs : list A) (body : A -> S -> M S) (f : A -> S -> S) (w : World) :
  (forall x s, body x s w = (f x s, w)) ->
  forall s, forRange xs body s w = (fold_left (fun s x => f x s) xs s, w).
Proof.
  intros Hbody. induction xs as [|x xs IH]; intros s; simpl; [done|].
  unfold bind. rewrite Hbody. apply IH.
Qed.

(** Appending the kept elements one by one is a filter followed by a map. *)
Lemma fold_left_snoc_filter {B : Type} (keep : A -> bool) (g : A -> B)
    (xs : list A) (acc : list B) :
  fold_left (fun acc x => if keep x then acc ++ [g x] else acc) xs acc =
    acc ++ map g (List.filter keep xs).
Proof.
  revert acc. induction xs as [|x xs IH]; intros acc; simpl.
  - by rewrite app_nil_r.
  - rewrite IH. destruct (keep x); simpl; [|done].
    by rewrite <- app_assoc.
Qed.

Lemma map_filter_map {B C : Type} (f : A -> B) (g : B -> C) (p : B -> bool)
    (l : list A) :
  map g (List.filter p (map f l)) =
    map (fun x => g (f x)) (List.filter (fun x => p (f x)) l).
Proof.
  induction l as [|x l IH]; simpl; [done|].
  destruct (p (f x)); simpl; by rewrite IH.
Qed.

End Loops.
Lemma filter_witness {A : Type} (p : A -> bool) (l : list A) :
  0 < length (List.filter p l) -> exists i x, l !! i = Some x /\ p x = true.
Proof.
  induction l as [|x l IH]; simpl; [lia|].
  destruct (p x) eqn:Hp.
  - intros _. by exists 0, x.
  - intros Hlen. destruct (IH Hlen) as (i & y & Hi & Hy). by exists (S i), y.
Qed.

Lemma filter_counts {A : Type} (p : A -> bool) (l : list A) (i : nat) (x : A) :
  l !! i = Some x ->
  (p x = true -> 0 < length (List.filter p l))
  /\ (p x = false -> length (List.filter p l) < length l).
Proof.
  intros Hi. rewrite <- (take_drop_middle _ _ _ Hi).
  rewrite List.filter_app, !length_app. cbn [List.filter length].
  pose proof (List.filter_length_le p (take i l)).
  pose proof (List.filter_length_le p (drop (S i) l)).
  split; intros ->; cbn [length]; lia.
Qed.

Lemma list_sum_cons (x : nat) (l : list nat) : list_sum (x :: l) = x + list_sum l.
Proof. done. Qed.

(** ** Strings *)

Section Strings.

Lemma append_length (a b : string) :
  String.length (a +:+ b) = String.length a + String.length b.
Proof. induction a as [|c a IH]; simpl; [done|]. by rewrite IH. Qed.

Lemma append_neq (a b : string) : b <> "" -> a <> a +:+ b.
Proof.
  intros Hb Heq. apply (f_equal String.length) in Heq.
  rewrite append_length in Heq. destruct b; [done|]. simpl in Heq. lia.
Qed.

End Strings.
(** ** The versioning mode: [isVersioningEnabled] and [SetVersioningEnabled] *)

Section VersioningMode.

Lemma modeOf_write (folder : Folder) (w : World) (v : string) :
  modeOf folder (snd (writeEnableVersioning (config folder) v w)) = v.
Proof.
  unfold modeOf, writeEnableVersioning. simpl.
  by rewrite lookup_total_insert_eq.
Qed.


(** What [isVersioningEnabled] returns, in closed form. *)
Lemma isVersioningEnabled_value (folder : Folder) (w : World) :
  fst (isVersioningEnabled folder w) =
    (String.eqb (modeOf folder w) VersioningEnabled
     || (String.eqb (modeOf folder w) VersioningDefault && reportsEnabled folder w)).
Proof.
  unfold isVersioningEnabled, modeOf, reportsEnabled. unfold_monad.
  destruct (String.eqb_spec (EnableVersioning (configs w !!! config folder))
              VersioningEnabled) as [He|He]; [done|].
  destruct (String.eqb_spec (EnableVersioning (configs w !!! config folder))
              VersioningDisabled) as [Hd|Hd].
  { rewrite Hd. done. }
  destruct (String.eqb_spec (EnableVersioning (configs w !!! config folder))
              VersioningDefault) as [Hu|Hu]; [|done].
  destruct (GetBucketVersioning _ _ _) as [[[status|]]|e]; simpl; try done.
  by destruct (String.eqb status BucketVersioningStatusEnabled).
Qed.

(** The requests [isVersioningEnabled] issues: one query, and only when
    the mode is unresolved. *)
Lemma isVersioningEnabled_trace (folder : Folder) (w : World) :
  trace (snd (isVersioningEnabled folder w)) =
    if String.eqb (modeOf folder w) VersioningDefault
    then trace w ++ [ReqGetBucketVersioning (bucket folder)]
    else trace w.
Proof.
  unfold isVersioningEnabled, modeOf. unfold_monad.
  destruct (String.eqb_spec (EnableVersioning (configs w !!! config folder))
              VersioningEnabled) as [He|He].
  { rewrite He. done. }
  destruct (String.eqb_spec (EnableVersioning (configs w !!! config folder))
              VersioningDisabled) as [Hd|Hd].
  { rewrite Hd. done. }
  destruct (String.eqb_spec (EnableVersioning (configs w !!! config folder))
              VersioningDefault) as [Hu|Hu]; [|done].
  destruct (GetBucketVersioning _ _ _) as [[[status|]]|e]; simpl; try done.
  by destruct (String.eqb status BucketVersioningStatusEnabled).
Qed.

(** The store of configurations after [isVersioningEnabled]: a successful
    query caches its answer, nothing else writes. *)
Lemma isVersioningEnabled_configs (folder : Folder) (w : World) :
  configs (snd (isVersioningEnabled folder w)) =
    if String.eqb (modeOf folder w) VersioningDefault
    then match GetBucketVersioning (s3API folder) (trace w) (bucket folder) with
         | Ok _ =>
             configs (snd (writeEnableVersioning (config folder)
                             (if reportsEnabled folder w
                              then VersioningEnabled else VersioningDisabled) w))
         | Err _ => configs w
         end
    else configs w.
Proof.
  unfold isVersioningEnabled, modeOf, reportsEnabled. unfold_monad.
  destruct (String.eqb_spec (EnableVersioning (configs w !!! config folder))
              VersioningEnabled) as [He|He].
  { rewrite He. done. }
  destruct (String.eqb_spec (EnableVersioning (configs w !!! config folder))
              VersioningDisabled) as [Hd|Hd].
  { rewrite Hd. done. }
  destruct (String.eqb_spec (EnableVersioning (configs w !!! config folder))
              VersioningDefault) as [Hu|Hu]; [|done].
  destruct (GetBucketVersioning _ _ _) as [[[status|]]|e]; simpl; try done.
  by destruct (String.eqb status BucketVersioningStatusEnabled).
Qed.

(** The mode after [isVersioningEnabled]: an unresolved mode becomes what a
    successful query reports and stays unresolved when the query fails. *)
Lemma isVersioningEnabled_mode (folder : Folder) (w : World) :
  modeOf folder (snd (isVersioningEnabled folder w)) =
    if String.eqb (modeOf folder w) VersioningDefault
    then match GetBucketVersioning (s3API folder) (trace w) (bucket folder) with
         | Ok _ => if reportsEnabled folder w then VersioningEnabled else VersioningDisabled
         | Err _ => VersioningDefault
         end
    else modeOf folder w.
Proof.
  unfold modeOf at 1. rewrite isVersioningEnabled_configs.
  destruct (String.eqb_spec (modeOf folder w) VersioningDefault) as [Hd|Hd]; [|done].
  destruct (GetBucketVersioning _ _ _); [|done].
  apply modeOf_write.
Qed.

(** The mode [SetVersioningEnabled] leaves behind. *)
Lemma SetVersioningEnabled_mode (folder : Folder) (enable : bool) (w : World) :
  modeOf folder (snd (SetVersioningEnabled folder enable w)) =
    (if enable && (String.eqb (modeOf folder w) VersioningEnabled
                   || (String.eqb (modeOf folder w) VersioningDefault
                       && reportsEnabled folder w))
     then VersioningEnabled else VersioningDisabled).
Proof.
  unfold SetVersioningEnabled, bind. destruct enable; cbn [andb].
  - pose proof (isVersioningEnabled_value folder w) as Hv.
    destruct (isVersioningEnabled folder w) as [v w1]. cbn [fst snd] in *.
    rewrite <- Hv. destruct v; apply modeOf_write.
  - apply modeOf_write.
Qed.

(** C2, as the code has it.  [SetVersioningEnabled(false)] sets the mode
    to disabled and issues no request.  [SetVersioningEnabled(true)] sets
    it to enabled only if [isVersioningEnabled] reports true, that is, if
    the mode is already enabled or if it is unresolved and the store
    reports the bucket as versioned, and to disabled otherwise; it issues
    one versioning query when the mode is unresolved and none otherwise. *)
Theorem SetVersioningEnabled_spec (folder : Folder) (enable : bool) (w : World) :
  let w' := snd (SetVersioningEnabled folder enable w) in
  modeOf folder w' =
    (if enable && (String.eqb (modeOf folder w) VersioningEnabled
                   || (String.eqb (modeOf folder w) VersioningDefault
                       && reportsEnabled folder w))
     then VersioningEnabled else VersioningDisabled)
  /\ trace w' =
    (if enable && String.eqb (modeOf folder w) VersioningDefault
     then trace w ++ [ReqGetBucketVersioning (bucket folder)]
     else trace w).
Proof.
  split; [apply SetVersioningEnabled_mode|].
  unfold SetVersioningEnabled, bind. destruct enable; cbn [andb].
  - pose proof (isVersioningEnabled_trace folder w) as Ht.
    destruct (isVersioningEnabled folder w) as [v w1]. cbn [fst snd] in *.
    rewrite <- Ht. by destruct v.
  - done.
Qed.

End VersioningMode.

(** C2, the claim as stated fails.  With the mode disabled,
    [SetVersioningEnabled(true)] leaves it disabled although the bucket is
    versioned; with the mode unresolved it queries the store. *)
Lemma SetVersioningEnabled_true_is_checked :
  modeOf (exampleFolder enabledAPI)
    (snd (SetVersioningEnabled (exampleFolder enabledAPI) true
            (exampleWorld VersioningDisabled))) = VersioningDisabled
  /\ trace (snd (SetVersioningEnabled (exampleFolder enabledAPI) true
                   (exampleWorld VersioningDefault))) =
       [ReqGetBucketVersioning "bucket"].
Proof. split; reflexivity. Qed.
(** ** [Exists] and [ReadObject] *)

Section NotFound.

Lemma isAwsNotExist_true (err : error) : NotFoundSignal err -> isAwsNotExist err = true.
Proof. by intros [message [-> | ->]]. Qed.

Lemma isAwsNotExist_false (err : error) :
  ~ NotFoundSignal err -> isAwsNotExist err = false.
Proof.
  intros Hno. destruct err as [code message| | |]; try done. simpl.
  destruct (String.eqb_spec code NotFoundAWSErrorCode) as [->|_].
  { exfalso. apply Hno. exists message. by left. }
  destruct (String.eqb_spec code NoSuchKeyAWSErrorCode) as [->|_]; [|done].
  exfalso. apply Hno. exists message. by right.
Qed.

(** C5.  When [HeadObject] fails with the store's not-found signal (code
    [NotFound] or [NoSuchKey]) [Exists] returns [(false, nil)], and when
    [GetObject] fails with it [ReadObject] returns the typed [ObjectNotFound]
    error.  On every other failure of its own request each of the two
    returns the store's error wrapped in a message that names the full key.
    Each operation is stated by the answer to its own request alone. *)
Theorem not_found_translation (folder : Folder) (objectRelativePath : string)
    (w : World) :
  let key := path folder +:+ objectRelativePath in
  (forall headErr,
     HeadObject (s3API folder) (trace w) (bucket folder) key = Some headErr ->
     NotFoundSignal headErr ->
     fst (Exists folder objectRelativePath w) = (false, None))
  /\ (forall getErr,
     GetObject (s3API folder) (trace w) (bucket folder) key = Err getErr ->
     NotFoundSignal getErr ->
     fst (ReadObject folder objectRelativePath w) = Err (ObjectNotFoundError key))
  /\ (forall headErr,
     HeadObject (s3API folder) (trace w) (bucket folder) key = Some headErr ->
     ~ NotFoundSignal headErr ->
     fst (Exists folder objectRelativePath w) =
       (false, Some (WrapError headErr
                       ("failed to check s3 object '" +:+ key +:+ "' existence"))))
  /\ (forall getErr,
     GetObject (s3API folder) (trace w) (bucket folder) key = Err getErr ->
     ~ NotFoundSignal getErr ->
     fst (ReadObject folder objectRelativePath w) =
       Err (WrapError getErr ("failed to read object: '" +:+ key +:+ "' from S3"))).
Proof.
  intros key. unfold Exists, ReadObject, bind, call, ret. cbn [fst snd]. fold key.
  split; [|split; [|split]].
  - intros headErr Hhead Hsig. rewrite Hhead.
    by rewrite (isAwsNotExist_true _ Hsig).
  - intros getErr Hget Hsig. rewrite Hget.
    by rewrite (isAwsNotExist_true _ Hsig).
  - intros headErr Hhead Hsig. rewrite Hhead.
    by rewrite (isAwsNotExist_false _ Hsig).
  - intros getErr Hget Hsig. rewrite Hget.
    by rewrite (isAwsNotExist_false _ Hsig).
Qed.

(** The four cases on a store that fails both requests, and each operation
    on a store that fails its request only: a read that is denied although
    the object exists, and an existence check that is denied although the
    object can be read. *)
Lemma not_found_translation_witness :
  let folder := exampleFolder failingReadAPI in
  let other := exampleFolder splitFailuresAPI in
  let w := exampleWorld VersioningDisabled in
  fst (Exists folder "missing" w) = (false, None)
  /\ fst (ReadObject folder "missing" w) = Err (ObjectNotFoundError "base/missing")
  /\ fst (Exists folder "secret" w) =
       (false, Some (WrapError (AwsError "AccessDenied" "Access Denied")
                       "failed to check s3 object 'base/secret' existence"))
  /\ fst (ReadObject folder "secret" w) =
       Err (WrapError (AwsError "AccessDenied" "Access Denied")
              "failed to read object: 'base/secret' from S3")
  /\ fst (Exists other "locked" w) = (true, None)
  /\ fst (ReadObject other "locked" w) =
       Err (WrapError (AwsError "AccessDenied" "Access Denied")
              "failed to read object: 'base/locked' from S3")
  /\ fst (ReadObject other "hidden" w) = Ok (Body "")
  /\ fst (Exists other "hidden" w) =
       (false, Some (WrapError (AwsError "AccessDenied" "Access Denied")
                       "failed to check s3 object 'base/hidden' existence")).
Proof.
  intros folder other w.
  destruct (not_found_translation folder "missing" w) as (H1 & H2 & _ & _).
  destruct (not_found_translation folder "secret" w) as (_ & _ & H3 & H4).
  destruct (not_found_translation other "locked" w) as (_ & _ & _ & H5).
  destruct (not_found_translation other "hidden" w) as (_ & _ & H6 & _).
  assert (Hdenied : ~ NotFoundSignal (AwsError "AccessDenied" "Access Denied")).
  { intros [message [Heq|Heq]]; discriminate Heq. }
  split; [apply (H1 (AwsError "NotFound" "Not Found") eq_refl);
          eexists; left; reflexivity|].
  split; [apply (H2 (AwsError "NoSuchKey" "The specified key does not exist.") eq_refl);
          eexists; right; reflexivity|].
  split; [exact (H3 _ eq_refl Hdenied)|].
  split; [exact (H4 _ eq_refl Hdenied)|].
  split; [reflexivity|].
  split; [exact (H5 _ eq_refl Hdenied)|].
  split; [reflexivity|].
  exact (H6 _ eq_refl Hdenied).
Defined.

End NotFound.
(** ** [ListFolder] *)

Section Listing.

Context `{StoragePaths}.

Lemma listFunc_closed (folder : Folder) (commonPrefixes : list string)
    (contents : list S3Object) (acc : list Object * list Folder) (w : World) :
  listFunc folder commonPrefixes contents acc w =
    ((fst acc ++ map (entryObject folder)
                   (List.filter (notSelf folder) (map EPlain contents)),
      snd acc ++ map (subFolderOf folder w) commonPrefixes), w).
Proof.
  unfold listFunc, bind.
  rewrite (forRange_pure commonPrefixes _
             (fun prefix subFolders => subFolders ++ [subFolderOf folder w prefix]) w)
    by done.
  rewrite (forRange_pure contents _
             (fun object objects =>
                if notSelf folder (EPlain object)
                then objects ++ [entryObject folder (EPlain object)] else objects) w).
  2:{ intros o s. unfold notSelf. simpl. by destruct (String.eqb (soKey o) (path folder)). }
  unfold ret. f_equal. f_equal.
  - rewrite (fold_left_snoc_filter (fun o => notSelf folder (EPlain o))
               (fun o => entryObject folder (EPlain o))).
    by rewrite map_filter_map.
  - rewrite (fold_left_snoc_filter (fun _ => true) (subFolderOf folder w)).
    f_equal. f_equal. clear. induction commonPrefixes; simpl; congruence.
Qed.

Lemma versionsListFunc_closed (folder : Folder) (out : ListObjectVersionsOutput)
    (acc : list Object * list Folder) (w : World) :
  versionsListFunc folder out acc w =
    ((fst acc ++ map (entryObject folder)
                   (List.filter (notSelf folder) (versionEntries [out])),
      snd acc ++ map (subFolderOf folder w) (lvCommonPrefixes out)), w).
Proof.
  unfold versionsListFunc, bind.
  rewrite (forRange_pure (lvCommonPrefixes out) _
             (fun prefix subFolders => subFolders ++ [subFolderOf folder w prefix]) w)
    by done.
  rewrite (forRange_pure (lvVersions out) _
             (fun object objects =>
                if notSelf folder (EVersion object)
                then objects ++ [entryObject folder (EVersion object)] else objects) w).
  2:{ intros o s. unfold notSelf, entryObject. simpl.
      destruct (String.eqb (ovKey o) (path folder)); [done|].
      by destruct (ovIsLatest o). }
  rewrite (forRange_pure (lvDeleteMarkers out) _
             (fun object objects =>
                if notSelf folder (EMarker object)
                then objects ++ [entryObject folder (EMarker object)] else objects) w).
  2:{ intros o s. unfold notSelf, entryObject. simpl.
      destruct (String.eqb (dmKey o) (path folder)); [done|].
      by destruct (dmIsLatest o). }
  unfold ret. f_equal. f_equal.
  - rewrite (fold_left_snoc_filter (fun o => notSelf folder (EMarker o))
               (fun o => entryObject folder (EMarker o))).
    rewrite (fold_left_snoc_filter (fun o => notSelf folder (EVersion o))
               (fun o => entryObject folder (EVersion o))).
    unfold versionEntries. simpl. rewrite app_nil_r, List.filter_app, map_app.
    by rewrite !map_filter_map, app_assoc.
  - rewrite (fold_left_snoc_filter (fun _ => true) (subFolderOf folder w)).
    f_equal. f_equal. clear. induction (lvCommonPrefixes out); simpl; congruence.
Qed.

(** The page loop of the plain listing. *)
Lemma plainPages_closed (folder : Folder) (pages : list ListObjectsOutput)
    (acc : list Object * list Folder) (w : World) :
  forRange pages
    (fun files s => listFunc folder (loCommonPrefixes files) (loContents files) s) acc w =
    ((fst acc ++ map (entryObject folder)
                   (List.filter (notSelf folder) (plainEntries pages)),
      snd acc ++ map (subFolderOf folder w) (flat_map loCommonPrefixes pages)), w).
Proof.
  revert acc. induction pages as [|files pages IH]; intros acc; simpl.
  - unfold ret. rewrite !app_nil_r. by destruct acc.
  - unfold bind. rewrite listFunc_closed, IH. cbn [fst snd].
    change (plainEntries (files :: pages))
      with (map EPlain (loContents files) ++ plainEntries pages).
    rewrite List.filter_app, !map_app, !app_assoc. done.
Qed.

(** The page loop of the version-aware listing. *)
Lemma versionPages_closed (folder : Folder) (pages : list ListObjectVersionsOutput)
    (acc : list Object * list Folder) (w : World) :
  forRange pages (versionsListFunc folder) acc w =
    ((fst acc ++ map (entryObject folder)
                   (List.filter (notSelf folder) (versionEntries pages)),
      snd acc ++ map (subFolderOf folder w) (flat_map lvCommonPrefixes pages)), w).
Proof.
  revert acc. induction pages as [|out pages IH]; intros acc; simpl.
  - unfold ret. rewrite !app_nil_r. by destruct acc.
  - unfold bind. rewrite versionsListFunc_closed, IH. cbn [fst snd].
    change (versionEntries (out :: pages))
      with (versionEntries [out] ++ versionEntries pages).
    rewrite List.filter_app, !map_app, !app_assoc.
    repeat f_equal. unfold versionEntries. simpl. by rewrite app_nil_r.
Qed.

(** [listVersions] in closed form. *)
Lemma listVersions_closed (folder : Folder) (w : World) :
  listVersions folder (path folder) "/" w =
    let r := ListObjectVersionsPages (s3API folder) (trace w) (bucket folder)
               (path folder) "/" in
    let w' := mkWorld (trace w ++ [ReqListObjectVersionsPages (bucket folder)
                                     (path folder) "/"]) (configs w) in
    (match listingError folder (snd r) with
     | Some err => ([], [], Some err)
     | None =>
         (map (entryObject folder) (List.filter (notSelf folder) (versionEntries (fst r))),
          map (subFolderOf folder w) (flat_map lvCommonPrefixes (fst r)), None)
     end, w').
Proof.
  unfold listVersions, bind, call. simpl.
  rewrite versionPages_closed. simpl.
  destruct (snd (ListObjectVersionsPages _ _ _ _ _)) as [err|]; simpl; [|done].
  by destruct (isAwsNotExist err).
Qed.

(** The plain listing in closed form. *)
Lemma listObjectsPages_closed (folder : Folder) (w : World) :
  listObjectsPages folder (path folder) "/" None (listFunc folder) ([], []) w =
    let r := plainListAnswer folder w in
    ((map (entryObject folder) (List.filter (notSelf folder) (plainEntries (fst r))),
      map (subFolderOf folder w) (flat_map loCommonPrefixes (fst r)), snd r),
     mkWorld (trace w ++ [plainListRequest folder w]) (configs w)).
Proof.
  unfold listObjectsPages, plainListAnswer, plainListRequest, bind, readConfig.
  destruct (UseListObjectsV1 _);
    unfold listObjectsPagesV1, listObjectsPagesV2, bind, call; simpl;
    rewrite plainPages_closed; done.
Qed.

(** [ListFolder] in closed form: resolve the mode, send one listing
    request, keep the entries that are not the folder's own prefix. *)
Lemma ListFolder_closed (folder : Folder) (w : World) :
  ListFolder folder w =
    let r := isVersioningEnabled folder w in
    let a := listingAnswer folder (fst r) (snd r) in
    (match listingError folder (snd a) with
     | Some err => ([], [], Some err)
     | None =>
         (map (entryObject folder) (List.filter (notSelf folder) (fst (fst a))),
          map (subFolderOf folder (snd r)) (snd (fst a)), None)
     end,
     mkWorld (trace (snd r) ++ [listingRequest folder (fst r) (snd r)])
       (configs (snd r))).
Proof.
  unfold ListFolder, bind.
  destruct (isVersioningEnabled folder w) as [[|] w1]; cbn [fst snd].
  - rewrite listVersions_closed. cbn [fst snd listingAnswer listingRequest].
    destruct (listingError folder _) as [err|]; simpl; done.
  - rewrite listObjectsPages_closed. cbn [fst snd listingAnswer listingRequest].
    unfold listingError.
    destruct (snd (plainListAnswer folder w1)) as [err|]; simpl; [|done].
    by destruct (isAwsNotExist err).
Qed.

(** C7.  On both listing paths, unless the store fails the listing with an
    error other than not-found, [ListFolder] returns nil as error and its
    objects are, in the order listed, the leaf entries the store listed
    whose full key is not the folder's own prefix: an entry whose key equals
    the prefix is left out and every other one is returned.  The entries are
    those of [ListObjectVersionsPages] when versioning is enabled and those
    of the plain listing otherwise. *)
Theorem ListFolder_excludes_own_prefix (folder : Folder) (w : World) :
  let r := isVersioningEnabled folder w in
  (forall err, snd (listingAnswer folder (fst r) (snd r)) = Some err ->
               NotFoundSignal err) ->
  snd (fst (ListFolder folder w)) = None
  /\ fst (fst (fst (ListFolder folder w))) =
       map (entryObject folder) (List.filter (notSelf folder) (listedEntries folder w))
  /\ listedEntries folder w =
       (if fst r
        then versionEntries
               (fst (ListObjectVersionsPages (s3API folder) (trace (snd r))
                       (bucket folder) (path folder) "/"))
        else plainEntries (fst (plainListAnswer folder (snd r)))).
Proof.
  cbn zeta. intros Hok. rewrite ListFolder_closed. unfold listedEntries.
  cbn [fst snd].
  assert (Herr : listingError folder
                   (snd (listingAnswer folder (fst (isVersioningEnabled folder w))
                           (snd (isVersioningEnabled folder w)))) = None).
  { unfold listingError.
    destruct (snd (listingAnswer folder _ _)) as [err|]; [|done].
    by rewrite (isAwsNotExist_true err (Hok err eq_refl)). }
  rewrite Herr. split; [done|]. split; [done|].
  unfold listingAnswer. by destruct (fst (isVersioningEnabled folder w)).
Qed.

Lemma entryObject_tagged (folder : Folder) (e : Entry) :
  (forall o, e <> EPlain o) -> versionTagged e (entryObject folder e).
Proof.
  intros Hne. unfold versionTagged.
  destruct e as [o|v|d]; [by destruct (Hne o)| |]; simpl.
  - destruct (ovIsLatest v); repeat split; try done.
    + intros Heq. symmetry in Heq. by apply append_neq in Heq.
    + intros Heq. by apply append_neq in Heq.
  - destruct (dmIsLatest d); repeat split; try done.
    + intros Heq. symmetry in Heq. by apply append_neq in Heq.
    + intros Heq. by apply append_neq in Heq.
Qed.

Lemma versionEntries_not_plain (pages : list ListObjectVersionsOutput) (e : Entry) :
  In e (versionEntries pages) -> forall o, e <> EPlain o.
Proof.
  unfold versionEntries. rewrite in_flat_map. intros (out & _ & Hin) o ->.
  apply in_app_or in Hin. rewrite !in_map_iff in Hin.
  destruct Hin as [(v & Hv & _)|(d & Hd & _)]; discriminate.
Qed.

(** C6.  With versioning enabled, when [ListFolder] returns without error
    each returned object stems from one listed revision (version or delete
    marker, the folder's own prefix left out) and its additional-info
    field is ["<version-id> LATEST"] exactly when the store flags that
    revision as the latest, the raw version id exactly when it does not; a
    version keeps its size and a delete marker has size 0. *)
Theorem ListFolder_version_tags (folder : Folder) (w : World) :
  fst (isVersioningEnabled folder w) = true ->
  snd (fst (ListFolder folder w)) = None ->
  Forall2 versionTagged
    (List.filter (notSelf folder) (listedEntries folder w))
    (fst (fst (fst (ListFolder folder w)))).
Proof.
  intros Hv. rewrite ListFolder_closed. unfold listedEntries.
  rewrite Hv. cbn [listingAnswer fst snd].
  destruct (listingError folder _) as [err|]; [done|]. intros _. cbn [fst].
  set (pages := fst (ListObjectVersionsPages _ _ _ _ _)).
  assert (Hall : forall e, In e (List.filter (notSelf folder) (versionEntries pages)) ->
                           forall o, e <> EPlain o).
  { intros e Hin. apply List.filter_In in Hin. destruct Hin as [Hin _].
    by apply versionEntries_not_plain with pages. }
  induction (List.filter (notSelf folder) (versionEntries pages)) as [|e es IH];
    simpl; constructor.
  - apply entryObject_tagged. apply Hall. by left.
  - apply IH. intros e' Hin. apply Hall. by right.
Qed.

End Listing.

(** The version-aware path and the plain path: in both stores the listing
    holds the folder's own prefix [base/] as a key, and it is the only entry
    left out. *)
Lemma ListFolder_excludes_own_prefix_witness :
  map entryKey (listedEntries (exampleFolder versionedListingAPI)
                  (exampleWorld VersioningDefault)) =
    ["base/"; "base/a"; "base/a"; "base/b"]
  /\ fst (fst (fst (@ListFolder specPaths (exampleFolder versionedListingAPI)
                      (exampleWorld VersioningDefault)))) =
       [mkObject "a" 3%Z 7%Z "v2 LATEST"; mkObject "a" 2%Z 5%Z "v1";
        mkObject "b" 4%Z 0%Z "d1 LATEST"]
  /\ map entryKey (listedEntries (exampleFolder brokenVersioningAPI)
                     (exampleWorld VersioningDisabled)) = ["base/"; "base/a"]
  /\ fst (fst (fst (@ListFolder specPaths (exampleFolder brokenVersioningAPI)
                      (exampleWorld VersioningDisabled)))) =
       [mkObject "a" 2%Z 10%Z ""].
Proof.
  destruct (@ListFolder_excludes_own_prefix specPaths
              (exampleFolder versionedListingAPI) (exampleWorld VersioningDefault))
    as (_ & Hversions & _).
  { intros err Herr. vm_compute in Herr. discriminate Herr. }
  destruct (@ListFolder_excludes_own_prefix specPaths
              (exampleFolder brokenVersioningAPI) (exampleWorld VersioningDisabled))
    as (_ & Hplain & _).
  { intros err Herr. vm_compute in Herr. discriminate Herr. }
  split; [reflexivity|]. split; [by rewrite Hversions|].
  split; [reflexivity|]. by rewrite Hplain.
Defined.

Lemma ListFolder_version_tags_witness :
  fst (isVersioningEnabled (exampleFolder versionedListingAPI)
         (exampleWorld VersioningDefault)) = true
  /\ snd (fst (@ListFolder specPaths (exampleFolder versionedListingAPI)
                 (exampleWorld VersioningDefault))) = None
  /\ Forall2 versionTagged
       (List.filter (notSelf (exampleFolder versionedListingAPI))
          (listedEntries (exampleFolder versionedListingAPI)
             (exampleWorld VersioningDefault)))
       (fst (fst (fst (@ListFolder specPaths (exampleFolder versionedListingAPI)
                         (exampleWorld VersioningDefault))))).
Proof.
  split; [reflexivity|]. split; [reflexivity|].
  apply (@ListFolder_version_tags specPaths); reflexivity.
Defined.

(** The listing of the example: the marker [base/] is gone, [a] appears
    once tagged [LATEST] and once with its raw version id, the delete marker
    of [b] has size 0. *)
Example ListFolder_versioned_example :
  fst (fst (fst (@ListFolder specPaths (exampleFolder versionedListingAPI)
                   (exampleWorld VersioningDefault)))) =
    [mkObject "a" 3%Z 7%Z "v2 LATEST"; mkObject "a" 2%Z 5%Z "v1";
     mkObject "b" 4%Z 0%Z "d1 LATEST"].
Proof. reflexivity. Qed.

Example ListFolder_plain_example :
  fst (fst (fst (@ListFolder specPaths (exampleFolder brokenVersioningAPI)
                   (exampleWorld VersioningDisabled)))) =
    [mkObject "a" 2%Z 10%Z ""].
Proof. reflexivity. Qed.
(** ** [DeleteObjects] *)

Section Deletion.

Lemma partitionToObjects_unversioned (folder : Folder) (keys : list string)
    (w : World) :
  partitionToObjects folder keys false w = (map (unversionedId folder) keys, w).
Proof.
  unfold partitionToObjects.
  rewrite (forRange_pure keys _
             (fun key objects => objects ++ [unversionedId folder key]) w) by done.
  rewrite (fold_left_snoc_filter (fun _ => true) (unversionedId folder)).
  simpl. f_equal. f_equal. induction keys; simpl; congruence.
Qed.

Lemma getObjectVersions_closed (folder : Folder) (key : string) (w : World) :
  getObjectVersions folder key w =
    (match ListObjectVersions (s3API folder) (trace w) (bucket folder)
             (path folder +:+ key) with
     | Ok out => Ok (revisionIds out)
     | Err err => Err err
     end,
     mkWorld (trace w ++ [listVersionsRequest folder key]) (configs w)).
Proof.
  unfold getObjectVersions, bind, call. cbn [fst snd].
  destruct (ListObjectVersions _ _ _ _) as [out|err]; [|done].
  set (w' := mkWorld _ _).
  rewrite (forRange_pure (lvVersions out) _
             (fun version list =>
                list ++ [mkObjectIdentifier (ovKey version) (Some (ovVersionId version))])
             w') by done.
  rewrite (forRange_pure (lvDeleteMarkers out) _
             (fun d list =>
                list ++ [mkObjectIdentifier (dmKey d) (Some (dmVersionId d))])
             w') by done.
  rewrite (fold_left_snoc_filter (fun _ => true)
             (fun d => mkObjectIdentifier (dmKey d) (Some (dmVersionId d)))).
  rewrite (fold_left_snoc_filter (fun _ => true)
             (fun v => mkObjectIdentifier (ovKey v) (Some (ovVersionId v)))).
  unfold ret, revisionIds. simpl. do 3 f_equal.
  - f_equal. induction (lvVersions out); simpl; congruence.
  - f_equal. induction (lvDeleteMarkers out); simpl; congruence.
Qed.

Lemma partitionToObjects_versioned_acc (folder : Folder) (keys : list string)
    (acc : list ObjectIdentifier) (w : World) :
  forRange keys (fun key objects =>
    do r <- getObjectVersions folder key in
    match r with
    | Err _ => ret (objects ++ [])
    | Ok versions => ret (objects ++ versions)
    end) acc w =
    (acc ++ versionedIds folder (trace w) keys,
     mkWorld (trace w ++ map (listVersionsRequest folder) keys) (configs w)).
Proof.
  revert acc w. induction keys as [|key keys IH]; intros acc w.
  - simpl. unfold ret. rewrite !app_nil_r. by destruct w.
  - cbn [forRange]. unfold bind at 1. unfold bind at 1.
    rewrite getObjectVersions_closed. cbn [versionedIds].
    unfold resolvedIds.
    destruct (ListObjectVersions _ _ _ _) as [out|err]; unfold ret;
      rewrite IH; cbn [trace configs map]; by rewrite <- !app_assoc.
Qed.

(** Building a batch, in closed form. *)
Lemma partitionToObjects_closed (folder : Folder) (keys : list string)
    (versioned : bool) (w : World) :
  partitionToObjects folder keys versioned w =
    (batchIds folder versioned (trace w) keys,
     mkWorld (trace w ++ batchListings folder versioned keys) (configs w)).
Proof.
  destruct versioned; cbn [batchIds batchListings].
  - unfold partitionToObjects. by rewrite partitionToObjects_versioned_acc.
  - rewrite partitionToObjects_unversioned. rewrite app_nil_r. by destruct w.
Qed.

Lemma DeleteObjects_parts_cons (folder : Folder) (versioned : bool)
    (part : list string) (parts : list (list string)) (w : World) :
  DeleteObjects_parts folder versioned (part :: parts) w =
    let objects := batchIds folder versioned (trace w) part in
    let w1 := mkWorld (trace w ++ batchListings folder versioned part
                         ++ [ReqDeleteObjects (bucket folder) objects]) (configs w) in
    match DeleteObjectsAPI (s3API folder) (trace w ++ batchListings folder versioned part)
            (bucket folder) objects with
    | Some err => (Some (batchFailure err part), w1)
    | None => DeleteObjects_parts folder versioned parts w1
    end.
Proof.
  cbn [DeleteObjects_parts]. unfold bind.
  rewrite partitionToObjects_closed. unfold call. cbn [fst snd trace configs].
  rewrite <- app_assoc.
  by destruct (DeleteObjectsAPI _ _ _ _).
Qed.

(** The loop of [DeleteObjects] follows [PartsRun] and writes no
    configuration. *)
Lemma DeleteObjects_parts_run (folder : Folder) (versioned : bool)
    (parts : list (list string)) (w : World) :
  exists issued,
    snd (DeleteObjects_parts folder versioned parts w) =
      mkWorld (trace w ++ issued) (configs w)
    /\ PartsRun folder versioned (trace w) parts issued
         (fst (DeleteObjects_parts folder versioned parts w)).
Proof.
  revert w. induction parts as [|part parts IH]; intros w.
  - exists []. simpl. rewrite app_nil_r. split; [by destruct w|constructor].
  - rewrite DeleteObjects_parts_cons. cbn zeta.
    destruct (DeleteObjectsAPI _ _ _ _) as [err|] eqn:Hdel.
    + eexists. cbn [fst snd]. split; [done|]. by apply PartsRun_fail.
    + set (w' := mkWorld _ _).
      destruct (IH w') as (issued & Hw & Hrun).
      exists (batchListings folder versioned part
              ++ ReqDeleteObjects (bucket folder)
                   (batchIds folder versioned (trace w) part) :: issued).
      split.
      * rewrite Hw. subst w'. cbn [trace configs].
        f_equal. rewrite <- !app_assoc. done.
      * apply PartsRun_next; [done|].
        subst w'. by cbn [trace] in Hrun.
Qed.

Lemma partitionFrom_nil (fuel blockSize : nat) : partitionFrom fuel [] blockSize = [].
Proof. by destruct fuel. Qed.

(** The parts of [partitionStrings]: consecutive, non-empty, at most 1000
    keys each, and ceil(n/1000) of them. *)
Lemma partitionFrom_spec (fuel : nat) (strings : list string) :
  length strings <= fuel ->
  concat (partitionFrom fuel strings 1000) = strings
  /\ Forall (fun part => 0 < length part <= 1000) (partitionFrom fuel strings 1000)
  /\ length (partitionFrom fuel strings 1000) = (length strings + 999) / 1000.
Proof.
  revert strings. induction fuel as [|fuel IH]; intros strings Hlen.
  - destruct strings; [|simpl in Hlen; lia]. by repeat split.
  - destruct strings as [|s strings]; [by repeat split|].
    cbn [partitionFrom]. set (l := s :: strings) in *.
    assert (Hl : 0 < length l) by (subst l; simpl; lia).
    destruct (IH (drop 1000 l)) as (Hcat & Hall & Hcount).
    { rewrite length_drop. lia. }
    split; [|split].
    + cbn [concat]. rewrite Hcat. apply take_drop.
    + constructor; [|done]. rewrite length_take. lia.
    + cbn [length]. rewrite Hcount, length_drop.
      destruct (decide (length l <= 1000)) as [Hsmall|Hbig].
      * replace (length l - 1000) with 0 by lia.
        replace ((0 + 999) / 1000) with 0 by done.
        apply (Nat.div_unique _ _ 1 (length l - 1)); lia.
      * replace (length l + 999) with ((length l - 1000 + 999) + 1 * 1000) by lia.
        rewrite Nat.div_add by done. lia.
Qed.

Lemma partitionStrings_spec (strings : list string) :
  concat (partitionStrings strings 1000) = strings
  /\ Forall (fun part => 0 < length part <= 1000) (partitionStrings strings 1000)
  /\ length (partitionStrings strings 1000) = (length strings + 999) / 1000.
Proof. by apply partitionFrom_spec. Qed.

Lemma deleteCalls_app (a b : list Request) :
  deleteCalls (a ++ b) = deleteCalls a ++ deleteCalls b.
Proof. unfold deleteCalls. induction a as [|x a IH]; simpl; [done|].
       by rewrite IH, app_assoc. Qed.

Lemma deleteCalls_listings (folder : Folder) (versioned : bool) (part : list string) :
  deleteCalls (batchListings folder versioned part) = [].
Proof. destruct versioned; [|done]. simpl. by induction part. Qed.

(** The batch calls of a run, against the parts. *)
Lemma PartsRun_calls (folder : Folder) (versioned : bool) (h : list Request)
    (parts : list (list string)) (issued : list Request) (r : option error) :
  PartsRun folder versioned h parts issued r ->
  Forall2 (fun part objects => exists h', objects = batchIds folder versioned h' part)
    (take (length (deleteCalls issued)) parts) (deleteCalls issued)
  /\ match r with
     | None => length (deleteCalls issued) = length parts
     | Some e =>
         exists k part objects err pre,
           parts !! k = Some part
           /\ length (deleteCalls issued) = S k
           /\ issued = pre ++ [ReqDeleteObjects (bucket folder) objects]
           /\ DeleteObjectsAPI (s3API folder) (h ++ pre) (bucket folder) objects
                = Some err
           /\ e = batchFailure err part
     end.
Proof.
  induction 1 as [h|h part parts err Hdel|h part parts issued r Hdel Hrun [IHcalls IHr]].
  - split; [constructor|done].
  - rewrite deleteCalls_app, deleteCalls_listings. simpl. split.
    + constructor; [by eexists|constructor].
    + by exists 0, part, (batchIds folder versioned h part), err,
                (batchListings folder versioned part).
  - rewrite deleteCalls_app, deleteCalls_listings. cbn [app deleteCalls flat_map length].
    fold (deleteCalls issued). split.
    + cbn [take]. constructor; [by eexists|done].
    + destruct r as [e|]; [|simpl; lia].
      destruct IHr as (k & part' & objects & err & pre & Hk & Hlen & Hissued & Hfail & He).
      exists (S k), part', objects, err,
        (batchListings folder versioned part
         ++ ReqDeleteObjects (bucket folder) (batchIds folder versioned h part) :: pre).
      split; [done|]. split; [simpl; lia|]. split.
      { rewrite Hissued. by rewrite <- app_assoc. }
      split; [|done].
      rewrite <- Hfail. f_equal. rewrite <- !app_assoc. done.
Qed.

(** Without versioning a call carries as many identifiers as its part has
    keys. *)
Lemma unversioned_batches_bounded (folder : Folder) (parts : list (list string))
    (calls : list (list ObjectIdentifier)) :
  Forall2 (fun part objects => exists h', objects = batchIds folder false h' part)
    parts calls ->
  Forall (fun part => length part <= 1000) parts ->
  Forall (fun objects => length objects <= 1000) calls.
Proof.
  induction 1 as [|part objects parts calls [h' ->] _ IH]; intros Hparts;
    constructor.
  - apply Forall_inv in Hparts. cbn [batchIds]. by rewrite length_map.
  - apply IH. by apply Forall_inv_tail in Hparts.
Qed.

(** What holds of the batches.  [DeleteObjects] cuts the [n] paths into
    ceil(n/1000) consecutive parts of at most 1000 keys and issues one
    batch-delete call per part, in list order; the call of a part carries
    the identifiers built from that part: without versioning its keys under
    the folder's prefix, at most 1000, with versioning every revision listed
    for its keys.  When every call succeeds there is one call per part and
    the result is nil.  When a call fails it is the last request issued: the
    error wraps the store's error in a message with that part's keys, no
    later part is sent, and the earlier calls are neither repeated nor
    undone. *)
Theorem DeleteObjects_batches (folder : Folder) (objectRelativePaths : list string)
    (w : World) :
  let parts := partitionStrings objectRelativePaths 1000 in
  let versioned := fst (isVersioningEnabled folder w) in
  exists issued,
    trace (snd (DeleteObjects folder objectRelativePaths w)) = trace w ++ issued
    /\ concat parts = objectRelativePaths
    /\ Forall (fun part => 0 < length part <= 1000) parts
    /\ length parts = (length objectRelativePaths + 999) / 1000
    /\ Forall2 (fun part objects =>
                  exists h', objects = batchIds folder versioned h' part)
         (take (length (deleteCalls issued)) parts) (deleteCalls issued)
    /\ Forall (fun objects => versioned = true \/ length objects <= 1000)
         (deleteCalls issued)
    /\ match fst (DeleteObjects folder objectRelativePaths w) with
       | None => length (deleteCalls issued) = length parts
       | Some e =>
           exists k part objects err pre,
             parts !! k = Some part
             /\ length (deleteCalls issued) = S k
             /\ issued = pre ++ [ReqDeleteObjects (bucket folder) objects]
             /\ DeleteObjectsAPI (s3API folder) (trace w ++ pre) (bucket folder) objects
                  = Some err
             /\ e = batchFailure err part
       end.
Proof.
  intros parts versioned.
  destruct (partitionStrings_spec objectRelativePaths) as (Hcat & Hall & Hcount).
  unfold DeleteObjects, bind. fold parts.
  pose proof (isVersioningEnabled_trace folder w) as Htrace.
  subst versioned.
  destruct (isVersioningEnabled folder w) as [versioned w1]. cbn [fst snd] in *.
  destruct (DeleteObjects_parts_run folder versioned parts w1) as (issued & Hw & Hrun).
  apply PartsRun_calls in Hrun. destruct Hrun as [Hcalls Hr].
  set (q := if String.eqb (modeOf folder w) VersioningDefault
            then [ReqGetBucketVersioning (bucket folder)] else []).
  assert (Hq : trace w1 = trace w ++ q).
  { rewrite Htrace. subst q. destruct (String.eqb _ _); [done|by rewrite app_nil_r]. }
  assert (Hdq : deleteCalls q = []).
  { subst q. by destruct (String.eqb _ _). }
  exists (q ++ issued). rewrite deleteCalls_app, Hdq. cbn [app].
  split; [rewrite Hw; cbn [trace]; by rewrite Hq, app_assoc|].
  do 4 (split; [done|]). split.
  { destruct versioned; [apply Forall_forall; by left|].
    eapply Forall_impl; [|intros objects Hlen; right; exact Hlen].
    apply (unversioned_batches_bounded folder _ _ Hcalls).
    apply Forall_take. eapply Forall_impl; [exact Hall|]. simpl. lia. }
  destruct (fst (DeleteObjects_parts folder versioned parts w1)) as [e|]; [|done].
  destruct Hr as (k & part & objects & err & pre & Hk & Hlen & Hissued & Hfail & He).
  exists k, part, objects, err, (q ++ pre).
  rewrite Hq, <- app_assoc in Hfail. rewrite <- app_assoc. by subst issued.
Qed.

Lemma versionedIds_app (folder : Folder) (h : list Request) (k1 k2 : list string) :
  versionedIds folder h (k1 ++ k2) =
    versionedIds folder h k1
    ++ versionedIds folder (h ++ map (listVersionsRequest folder) k1) k2.
Proof.
  revert h. induction k1 as [|key k1 IH]; intros h; simpl.
  - by rewrite app_nil_r.
  - rewrite IH, <- !app_assoc. done.
Qed.

(** In a run with versioning that ends without error, every key of every
    part has its listing issued, and the batch call that follows carries
    every identifier the store listed for it. *)
Lemma PartsRun_resolves (folder : Folder) (h : list Request)
    (parts : list (list string)) (issued : list Request) (r : option error)
    (key : string) :
  PartsRun folder true h parts issued r ->
  r = None ->
  In key (concat parts) ->
  exists pre post objects,
    issued = pre ++ listVersionsRequest folder key :: post
    /\ In (ReqDeleteObjects (bucket folder) objects) post
    /\ forall id, In id (resolvedIds folder (h ++ pre) key) -> In id objects.
Proof.
  induction 1 as [h|h part parts err Hdel|h part parts issued r Hdel Hrun IH];
    intros Hr Hin; [done|done|].
  cbn [concat] in Hin. apply in_app_or in Hin. destruct Hin as [Hin|Hin].
  - apply in_split in Hin. destruct Hin as (k1 & k2 & ->).
    exists (map (listVersionsRequest folder) k1),
           (map (listVersionsRequest folder) k2
            ++ ReqDeleteObjects (bucket folder)
                 (batchIds folder true h (k1 ++ key :: k2)) :: issued),
           (batchIds folder true h (k1 ++ key :: k2)).
    split; [|split].
    + cbn [batchListings]. rewrite map_app. cbn [map]. by rewrite <- app_assoc.
    + apply in_or_app. right. by left.
    + intros id Hid. cbn [batchIds]. rewrite versionedIds_app.
      apply in_or_app. right. cbn [versionedIds]. apply in_or_app. by left.
  - destruct (IH Hr Hin) as (pre & post & objects & Hissued & Hpost & Hids).
    exists (batchListings folder true part
            ++ ReqDeleteObjects (bucket folder) (batchIds folder true h part) :: pre),
           post, objects.
    split; [|split; [done|]].
    + rewrite Hissued, <- app_assoc. done.
    + intros id Hid. apply Hids.
      replace ((h ++ batchListings folder true part
                  ++ [ReqDeleteObjects (bucket folder) (batchIds folder true h part)])
               ++ pre)
        with (h ++ batchListings folder true part
                ++ ReqDeleteObjects (bucket folder) (batchIds folder true h part) :: pre);
        [done|].
      by rewrite <- !app_assoc.
Qed.

(** C1, as the code has it.  On a folder whose versioning mode is enabled,
    when [DeleteObjects] returns nil every listed key had its version
    listing issued, and every identifier (key, version id) that listing
    returned, versions and delete markers, is carried by a batch-delete
    call sent after it.  A listing that fails contributes no identifier
    ([resolvedIds] is empty then) and does not fail the call. *)
Theorem DeleteObjects_sends_listed_revisions (folder : Folder)
    (objectRelativePaths : list string) (w : World) (key : string) :
  fst (isVersioningEnabled folder w) = true ->
  fst (DeleteObjects folder objectRelativePaths w) = None ->
  In key objectRelativePaths ->
  exists pre post objects,
    trace (snd (DeleteObjects folder objectRelativePaths w)) =
      trace w ++ pre ++ listVersionsRequest folder key :: post
    /\ In (ReqDeleteObjects (bucket folder) objects) post
    /\ forall id, In id (resolvedIds folder (trace w ++ pre) key) -> In id objects.
Proof.
  intros Hv Hok Hin.
  destruct (partitionStrings_spec objectRelativePaths) as (Hcat & _ & _).
  rewrite <- Hcat in Hin.
  pose proof (isVersioningEnabled_trace folder w) as Htrace.
  revert Hok. unfold DeleteObjects, bind.
  destruct (isVersioningEnabled folder w) as [versioned w1]. cbn [fst snd] in *.
  subst versioned. intros Hok.
  destruct (DeleteObjects_parts_run folder true
              (partitionStrings objectRelativePaths 1000) w1) as (issued & Hw & Hrun).
  destruct (PartsRun_resolves _ _ _ _ _ key Hrun Hok Hin)
    as (pre & post & objects & Hissued & Hpost & Hids).
  set (q := if String.eqb (modeOf folder w) VersioningDefault
            then [ReqGetBucketVersioning (bucket folder)] else []).
  assert (Hq : trace w1 = trace w ++ q).
  { rewrite Htrace. subst q. destruct (String.eqb _ _); [done|by rewrite app_nil_r]. }
  exists (q ++ pre), post, objects. split; [|split; [done|]].
  - rewrite Hw. cbn [trace]. rewrite Hq, Hissued, <- !app_assoc. done.
  - intros id Hid. apply Hids. rewrite Hq, <- app_assoc. done.
Qed.

End Deletion.

Lemma DeleteObjects_sends_listed_revisions_witness :
  fst (isVersioningEnabled (exampleFolder listingAPI) (exampleWorld VersioningEnabled))
    = true
  /\ fst (DeleteObjects (exampleFolder listingAPI) ["a"] (exampleWorld VersioningEnabled))
     = None
  /\ exists pre post objects,
       trace (snd (DeleteObjects (exampleFolder listingAPI) ["a"]
                     (exampleWorld VersioningEnabled))) =
         trace (exampleWorld VersioningEnabled)
         ++ pre ++ listVersionsRequest (exampleFolder listingAPI) "a" :: post
       /\ In (ReqDeleteObjects (bucket (exampleFolder listingAPI)) objects) post
       /\ forall id,
            In id (resolvedIds (exampleFolder listingAPI)
                     (trace (exampleWorld VersioningEnabled) ++ pre) "a") ->
            In id objects.
Proof.
  split; [reflexivity|]. split; [reflexivity|].
  apply (DeleteObjects_sends_listed_revisions (exampleFolder listingAPI) ["a"]
           (exampleWorld VersioningEnabled) "a"); [reflexivity|reflexivity|].
  left. reflexivity.
Defined.

(** The requests of the example: one listing for [base/a], then one batch
    with its three revisions. *)
Example DeleteObjects_versioned_example :
  trace (snd (DeleteObjects (exampleFolder listingAPI) ["a"]
                (exampleWorld VersioningEnabled))) =
    [ReqListObjectVersions "bucket" "base/a";
     ReqDeleteObjects "bucket"
       [mkObjectIdentifier "base/a" (Some "v2");
        mkObjectIdentifier "base/a" (Some "v1");
        mkObjectIdentifier "base/a" (Some "d0")]].
Proof. reflexivity. Qed.

(** C1, the claim as stated fails.  The version listing of [a] fails, the
    failure is only logged: [DeleteObjects] sends an empty batch and returns
    nil, and the revisions of [a] are still listed afterwards. *)
Lemma DeleteObjects_failed_listing_is_success :
  let folder := exampleFolder flakyListingAPI in
  let r := DeleteObjects folder ["a"] (exampleWorld VersioningEnabled) in
  fst r = None
  /\ trace (snd r) =
       [ReqListObjectVersions "bucket" "base/a"; ReqDeleteObjects "bucket" []]
  /\ fst (getObjectVersions folder "a" (snd r)) =
       Ok [mkObjectIdentifier "base/a" (Some "v2");
           mkObjectIdentifier "base/a" (Some "v1");
           mkObjectIdentifier "base/a" (Some "d0")].
Proof. repeat split; reflexivity. Qed.

(** The listing is by prefix: deleting [a] also sends the revision of
    [base/ab], a key that was not listed for deletion. *)
Example DeleteObjects_prefix_overreach :
  deleteCalls (trace (snd (DeleteObjects (exampleFolder prefixListingAPI) ["a"]
                             (exampleWorld VersioningEnabled)))) =
    [[mkObjectIdentifier "base/a" (Some "v1"); mkObjectIdentifier "base/ab" (Some "w1")]].
Proof. reflexivity. Qed.
(** C4, where the code fails.  The ceiling of 1000 is the store's limit on
    the entries of one batch-delete call.  [DeleteObjects] cuts the paths
    into parts of 1000 keys and only then lets [partitionToObjects] expand
    every key of a part into its revisions: on a versioned bucket 1000 keys
    of two revisions each go out in one call that carries 2000 identifiers,
    two for each of the 1000 keys.  Without versioning the same keys go out
    in one call of 1000 identifiers. *)
Theorem DeleteObjects_versioned_batch_exceeds_1000 :
  let keys := keyNames 1000 in
  let r := DeleteObjects (exampleFolder twoRevisionsAPI) keys
             (exampleWorld VersioningEnabled) in
  let plain := DeleteObjects (exampleFolder twoRevisionsAPI) keys
                 (exampleWorld VersioningDisabled) in
  length keys = 1000
  /\ partitionStrings keys 1000 = [keys]
  /\ fst r = None
  /\ deleteCalls (trace (snd r)) =
       [flat_map (fun key => [mkObjectIdentifier ("base/" +:+ key) (Some "v2");
                              mkObjectIdentifier ("base/" +:+ key) (Some "v1")]) keys]
  /\ map length (deleteCalls (trace (snd r))) = [2000]
  /\ map length (deleteCalls (trace (snd plain))) = [1000].
Proof. repeat split; vm_compute; reflexivity. Qed.

(** The example of the spec: 2500 keys go out in three calls of 1000, 1000
    and 500 keys. *)
Example DeleteObjects_2500_keys :
  let r := DeleteObjects (exampleFolder enabledAPI) manyKeys
             (exampleWorld VersioningDisabled) in
  fst r = None
  /\ map length (deleteCalls (trace (snd r))) = [1000; 1000; 500].
Proof. split; vm_compute; reflexivity. Qed.

(** When the second call fails, two calls have been issued and the error
    names the keys of the second part. *)
Example DeleteObjects_second_batch_fails :
  let r := DeleteObjects (exampleFolder secondBatchFailsAPI) manyKeys
             (exampleWorld VersioningDisabled) in
  fst r = Some (batchFailure (AwsError "InternalError" "We encountered an internal error.")
                  (take 1000 (drop 1000 manyKeys)))
  /\ map length (deleteCalls (trace (snd r))) = [1000; 1000].
Proof. split; vm_compute; reflexivity. Qed.

(** ** A failed versioning query *)

Section FailedQuery.

Context `{StoragePaths}.

(** Without versioning the loop of [DeleteObjects] sends the batches of the
    parts in order, each carrying the keys of its part under the folder's
    path, and nothing else: all of them when it returns nil, and those up to
    the one the store failed when it returns an error, which names the keys
    of that part. *)
Lemma DeleteObjects_parts_unversioned_exact (folder : Folder)
    (parts : list (list string)) (w : World) :
  exists n,
    snd (DeleteObjects_parts folder false parts w) =
      mkWorld (trace w ++ map (unversionedBatch folder) (take n parts)) (configs w)
    /\ match fst (DeleteObjects_parts folder false parts w) with
       | None => n = length parts
       | Some e =>
           exists k part err,
             n = S k
             /\ parts !! k = Some part
             /\ DeleteObjectsAPI (s3API folder)
                  (trace w ++ map (unversionedBatch folder) (take k parts))
                  (bucket folder) (map (unversionedId folder) part) = Some err
             /\ e = batchFailure err part
       end.
Proof.
  revert w. induction parts as [|part parts IH]; intros w.
  - exists 0. cbn [DeleteObjects_parts take map]. unfold ret. cbn [fst snd].
    rewrite app_nil_r. split; [by destruct w|done].
  - rewrite DeleteObjects_parts_cons. cbn zeta. cbn [batchListings batchIds].
    rewrite app_nil_r. cbn [app].
    destruct (DeleteObjectsAPI _ _ _ _) as [err|] eqn:Hdel.
    + exists 1. cbn [fst snd take map]. split; [done|].
      exists 0, part, err. cbn [take map]. rewrite app_nil_r. done.
    + set (w1 := mkWorld _ _). destruct (IH w1) as (n & Hw & Hr).
      exists (S n). cbn [take map]. split.
      * rewrite Hw. subst w1. cbn [trace configs]. by rewrite <- app_assoc.
      * destruct (fst (DeleteObjects_parts folder false parts w1)) as [e|];
          [|cbn [length]; by rewrite Hr].
        destruct Hr as (k & part' & err & -> & Hk & Hfail & ->).
        exists (S k), part', err. split; [done|]. split; [done|]. split; [|done].
        rewrite <- Hfail. subst w1. cbn [trace take map]. by rewrite <- app_assoc.
Qed.

(** C10.  While the mode is unresolved, a failed versioning query makes
    [isVersioningEnabled] return false and leaves the configuration as it
    was: the mode is still unresolved and the next call queries the store
    again.  [ListFolder] then takes the plain path: it sends the plain
    listing request and returns what the plain listing gives.
    [DeleteObjects] takes the unversioned path: after the query it sends no
    version listing and one batch per part, in order, with the keys of the
    part and no version id, all of them when it returns nil and those up to
    the failed one when it returns an error. *)
Theorem isVersioningEnabled_failed_query (folder : Folder) (w : World) (e : error)
    (objectRelativePaths : list string) :
  modeOf folder w = VersioningDefault ->
  GetBucketVersioning (s3API folder) (trace w) (bucket folder) = Err e ->
  let query := ReqGetBucketVersioning (bucket folder) in
  let w1 := mkWorld (trace w ++ [query]) (configs w) in
  let parts := partitionStrings objectRelativePaths 1000 in
  let listed := plainListAnswer folder w1 in
  isVersioningEnabled folder w = (false, w1)
  /\ modeOf folder w1 = VersioningDefault
  /\ trace (snd (isVersioningEnabled folder w1)) = trace w1 ++ [query]
  /\ trace (snd (ListFolder folder w)) = trace w1 ++ [plainListRequest folder w]
  /\ fst (ListFolder folder w) =
       match listingError folder (snd listed) with
       | Some err => ([], [], Some err)
       | None =>
           (map (entryObject folder)
              (List.filter (notSelf folder) (plainEntries (fst listed))),
            map (subFolderOf folder w1) (flat_map loCommonPrefixes (fst listed)),
            None)
       end
  /\ exists n,
       trace (snd (DeleteObjects folder objectRelativePaths w)) =
         trace w1 ++ map (unversionedBatch folder) (take n parts)
       /\ match fst (DeleteObjects folder objectRelativePaths w) with
          | None => n = length parts
          | Some err =>
              exists k part cause,
                n = S k
                /\ parts !! k = Some part
                /\ DeleteObjectsAPI (s3API folder)
                     (trace w1 ++ map (unversionedBatch folder) (take k parts))
                     (bucket folder) (map (unversionedId folder) part) = Some cause
                /\ err = batchFailure cause part
          end.
Proof.
  intros Hmode Herr query w1 parts listed.
  assert (Hcall : isVersioningEnabled folder w = (false, w1)).
  { unfold isVersioningEnabled, bind, readConfig, call, ret. cbn [fst snd].
    unfold modeOf in Hmode. rewrite Hmode. cbn. by rewrite Herr. }
  assert (Hmode1 : modeOf folder w1 = VersioningDefault) by done.
  split; [done|]. split; [done|]. split.
  { rewrite isVersioningEnabled_trace. by rewrite Hmode1. }
  split; [by rewrite ListFolder_closed, Hcall|].
  split; [by rewrite ListFolder_closed, Hcall|].
  unfold DeleteObjects, bind. rewrite Hcall. fold parts.
  destruct (DeleteObjects_parts_unversioned_exact folder parts w1) as (n & Hn & Hr).
  exists n. split; [by rewrite Hn|exact Hr].
Qed.

End FailedQuery.

(** The query fails with a timeout: [ListFolder] lists the plain way and
    leaves out the folder's own prefix, [DeleteObjects] sends the two keys
    in one batch without version ids, and the mode is unresolved as before. *)
Lemma isVersioningEnabled_failed_query_witness :
  modeOf (exampleFolder brokenVersioningAPI) (exampleWorld VersioningDefault)
    = VersioningDefault
  /\ trace (snd (@ListFolder specPaths (exampleFolder brokenVersioningAPI)
                   (exampleWorld VersioningDefault))) =
       [ReqGetBucketVersioning "bucket"; ReqListObjectsV2Pages "bucket" "base/" "/" None]
  /\ fst (isVersioningEnabled (exampleFolder brokenVersioningAPI)
            (exampleWorld VersioningDefault)) = false
  /\ fst (fst (fst (@ListFolder specPaths (exampleFolder brokenVersioningAPI)
                      (exampleWorld VersioningDefault)))) = [mkObject "a" 2%Z 10%Z ""]
  /\ trace (snd (DeleteObjects (exampleFolder brokenVersioningAPI) ["a"; "b"]
                   (exampleWorld VersioningDefault))) =
       [ReqGetBucketVersioning "bucket";
        ReqDeleteObjects "bucket"
          [mkObjectIdentifier "base/a" None; mkObjectIdentifier "base/b" None]].
Proof.
  split; [reflexivity|].
  destruct (@isVersioningEnabled_failed_query specPaths
              (exampleFolder brokenVersioningAPI) (exampleWorld VersioningDefault)
              (PlainError "timeout") ["a"; "b"] eq_refl eq_refl)
    as (Hcall & _ & _ & Hlist & Hobjects & n & Hdelete & Hn).
  split; [exact Hlist|]. split; [by rewrite Hcall|].
  split; [by rewrite Hobjects|].
  assert (Hnil : fst (DeleteObjects (exampleFolder brokenVersioningAPI) ["a"; "b"]
                        (exampleWorld VersioningDefault)) = None) by reflexivity.
  rewrite Hnil in Hn. rewrite Hdelete, Hn. reflexivity.
Defined.
(** ** [GetSubFolder] *)

Section SubFolders.

Context `{StoragePaths}.









End SubFolders.

(** ** [BuildCopyingInfos] *)

Section CopyingInfos.

(** C8.  [BuildCopyingInfos] returns one job per object that satisfies the
    filter, in input order: the job's source object is that object, its
    folders are [from] and [to], and its target name is the rename
    function applied to the object; a rejected object yields no job. *)
Theorem BuildCopyingInfos_filter_rename (from to : Folder) (objects : list Object)
    (filter : Object -> bool) (renameFunc : Object -> string)
    (sourceTransformer : option SourceTransformerFunc) :
  BuildCopyingInfos from to objects filter renameFunc sourceTransformer =
    map (fun object =>
           mkInfoProvider from sourceTransformer to object (renameFunc object))
      (List.filter filter objects).
Proof.
  unfold BuildCopyingInfos.
  by rewrite (fold_left_snoc_filter filter
                (fun object => mkInfoProvider from sourceTransformer to object
                                 (renameFunc object))).
Qed.

End CopyingInfos.
(** The example of the spec: five objects, a filter that selects three of
    them and a rename that appends [.bak]. *)
Example BuildCopyingInfos_example :
  map targetName
    (BuildCopyingInfos (exampleFolder enabledAPI) (exampleFolder enabledAPI)
       [mkObject "a" 1%Z 4%Z ""; mkObject "b" 2%Z 0%Z ""; mkObject "c" 3%Z 9%Z "";
        mkObject "d" 4%Z 0%Z ""; mkObject "e" 5%Z 1%Z ""]
       (fun o => Z.ltb 0 (GetSize o)) (fun o => GetName o +:+ ".bak") None) =
    ["a.bak"; "c.bak"; "e.bak"].
Proof. reflexivity. Qed.

(** ** [Infos] *)

Section Scheduler.

Context `{InternalUploads}.

Lemma stepGo_out_of_range (s : Sched) (i : nat) :
  length (goroutines s) <= i -> stepGo i s = None.
Proof.
  intros Hi. unfold stepGo. by rewrite (lookup_ge_None_2 _ _ Hi).
Qed.

(** [stuck] is sound: no thread can take a step. *)
Lemma stuck_sound (s : Sched) : stuck s = true -> forall t, step t s = None.
Proof.
  unfold stuck. intros Hstuck t. apply andb_prop in Hstuck.
  destruct Hstuck as [Hmain Hgo]. destruct t as [|i]; simpl.
  - unfold mainBlocked in Hmain. by destruct (stepMain s).
  - destruct (decide (i < length (goroutines s))) as [Hi|Hi].
    + rewrite forallb_forall in Hgo. specialize (Hgo i).
      unfold goBlocked in Hgo. destruct (stepGo i s); [|done].
      assert (Hin : In i (seq 0 (length (goroutines s)))) by (apply in_seq; lia).
      by specialize (Hgo Hin).
    + apply stepGo_out_of_range. lia.
Qed.

Lemma steps_app (a b : list Thread) (s : Sched) :
  steps (a ++ b) s = match steps a s with Some s' => steps b s' | None => None end.
Proof.
  revert s. induction a as [|t a IH]; intros s; simpl; [done|].
  destruct (step t s); [apply IH|done].
Qed.

(** A step of goroutine [i] replaces one goroutine by its next state. *)
Lemma stepGo_cases (i : nat) (s s' : Sched) :
  stepGo i s = Some s' ->
  exists l1 g l2 g',
    goroutines s = l1 ++ g :: l2
    /\ goroutines s' = l1 ++ g' :: l2
    /\ main s' = main s
    /\ gHandler g' = gHandler g
    /\ ((exists h, g = GCopy h
                   /\ g' = GTicket h (fst (copyObject h (world s)))
                   /\ errors s' = errors s /\ wg s' = wg s)
        \/ (exists h e, g = GTicket h e /\ g' = GError h e
                        /\ errors s' = errors s /\ wg s' = wg s)
        \/ (exists h e, g = GError h e /\ g' = GDone h e
                        /\ errors s' = errors s ++ [e] /\ wg s' = wg s)
        \/ (exists h e, g = GDone h e /\ g' = GExit h e
                        /\ errors s' = errors s /\ wg s' = pred (wg s))).
Proof.
  unfold stepGo. destruct (goroutines s !! i) as [g|] eqn:Hi; [|done].
  pose proof (take_drop_middle _ _ _ Hi) as Hsplit.
  pose proof (lookup_lt_Some _ _ _ Hi) as Hlt.
  assert (Hins : forall g', <[i:=g']> (goroutines s)
                            = take i (goroutines s) ++ g' :: drop (S i) (goroutines s)).
  { intros g'. by apply insert_take_drop. }
  intros Hstep. exists (take i (goroutines s)), g, (drop (S i) (goroutines s)).
  destruct g as [h|h e|h e|h e|h e].
  - destruct (copyObject h (world s)) as [err w'] eqn:Hcopy.
    injection Hstep as <-. exists (GTicket h err). cbn [goroutines main errors wg].
    rewrite Hins. do 4 (split; [done|]). left. exists h. by rewrite Hcopy.
  - destruct (decide _); [|done]. injection Hstep as <-.
    exists (GError h e). cbn [goroutines main errors wg].
    rewrite Hins. do 4 (split; [done|]). right. left. by exists h, e.
  - destruct (decide _); [|done]. injection Hstep as <-.
    exists (GDone h e). cbn [goroutines main errors wg].
    rewrite Hins. do 4 (split; [done|]). right. right. left. by exists h, e.
  - injection Hstep as <-.
    exists (GExit h e). cbn [goroutines main errors wg].
    rewrite Hins. do 4 (split; [done|]). right. right. right. by exists h, e.
  - done.
Qed.

Lemma failures_app (a b : list (option error)) :
  failures (a ++ b) = failures a ++ failures b.
Proof. unfold failures. by rewrite flat_map_app. Qed.

Lemma sentFailures_app (a b : list Goroutine) :
  sentFailures (a ++ b) = sentFailures a ++ sentFailures b.
Proof. unfold sentFailures. by rewrite flat_map_app. Qed.

(** A goroutine that moves keeps its job and the result it has. *)
Lemma result_kept (l1 l2 : list Goroutine) (g g' : Goroutine) (r : option error) :
  (forall r, gResult g = Some r -> gResult g' = Some r) ->
  (exists g0, In g0 (l1 ++ g :: l2) /\ gResult g0 = Some r) ->
  exists g0, In g0 (l1 ++ g' :: l2) /\ gResult g0 = Some r.
Proof.
  intros Hkeep (g0 & Hin & Hres). apply in_app_or in Hin.
  destruct Hin as [Hin|[<-|Hin]].
  - exists g0. split; [|done]. apply in_or_app. by left.
  - exists g'. split; [|by apply Hkeep]. apply in_or_app. right. by left.
  - exists g0. split; [|done]. apply in_or_app. right. by right.
Qed.

(** The steps of the goroutines keep the invariant. *)
Lemma SchedInv_stepGo (chs : list InfoProvider) (i : nat) (s s' : Sched) :
  SchedInv chs s -> stepGo i s = Some s' -> SchedInv chs s'.
Proof.
  intros (Hwg & Hbuf & Hres & Hpre & Hmain) Hstep.
  destruct (stepGo_cases i s s' Hstep)
    as (l1 & g & l2 & g' & Hgs & Hgs' & Hm & Hh & Hcases).
  assert (Hkeep : forall r, gResult g = Some r -> gResult g' = Some r).
  { destruct Hcases as [(h & -> & -> & _)|[(h & e & -> & -> & _)
      |[(h & e & -> & -> & _)|(h & e & -> & -> & _)]]]; done. }
  unfold SchedInv. rewrite Hgs', Hm. rewrite Hgs in Hwg, Hbuf, Hres, Hpre, Hmain.
  split; [|split; [|split; [|split]]].
  - (* wg *)
    rewrite List.filter_app, length_app in Hwg |- *. cbn [List.filter] in *.
    destruct Hcases as [(h & -> & -> & _ & ->)|[(h & e & -> & -> & _ & ->)
      |[(h & e & -> & -> & _ & ->)|(h & e & -> & -> & _ & ->)]]];
      cbn [gLive length] in *; lia.
  - (* the buffer *)
    intros e He. apply (result_kept l1 l2 g g' _ Hkeep).
    destruct Hcases as [(h & -> & -> & Hq & _)|[(h & e0 & -> & -> & Hq & _)
      |[(h & e0 & -> & -> & Hq & _)|(h & e0 & -> & -> & Hq & _)]]];
      rewrite Hq in He; try by apply Hbuf.
    apply in_app_or in He. destruct He as [He|[He|[]]]; [by apply Hbuf|].
    subst e0. exists (GError h (Some e)). split; [|done].
    apply in_or_app. right. by left.
  - (* recorded results *)
    rewrite Forall_app, Forall_cons in Hres |- *.
    destruct Hres as (H1 & Hg & H2). split; [done|]. split; [|done].
    destruct Hcases as [(h & -> & -> & _)|[(h & e & -> & -> & _)
      |[(h & e & -> & -> & _)|(h & e & -> & -> & _)]]]; try exact Hg.
    intros r [= <-]. by exists (world s).
  - (* started in order *)
    rewrite map_app in Hpre |- *. cbn [map] in *. by rewrite Hh.
  - (* the main thread *)
    destruct (main s) as [rest|ch rest|ch rest| | |[e|]].
    6:{ apply (result_kept l1 l2 g g' _ Hkeep). exact Hmain. }
    6:{ destruct Hmain as [_ Hall]. rewrite Forall_app, Forall_cons in Hall.
        destruct Hall as (_ & Hg & _).
        destruct Hcases as [(h & -> & _)|[(h & e & -> & _)
          |[(h & e & -> & _)|(h & e & -> & _)]]]; discriminate Hg. }
    all: destruct Hmain as (Hjobs & Hcount & Hfinal).
    all: split; [rewrite map_app in Hjobs |- *; cbn [map] in *; by rewrite Hh|].
    all: rewrite sentFailures_app in Hcount |- *; rewrite !length_app in Hcount |- *.
    all: destruct Hcases as [(h & -> & -> & -> & ->)|[(h & e & -> & -> & -> & ->)
           |[(h & e & -> & -> & -> & ->)|(h & e & -> & -> & -> & ->)]]].
    all: rewrite ?failures_app, ?length_app; cbn in *.
    all: split; [try lia|].
    all: try (intros Hf; specialize (Hfinal Hf); lia).
    all: try done.
    all: destruct e; cbn in *; lia.
Qed.

(** Once every goroutine has called [wg.Done] and none has sent a non-nil
    value, every copy has returned nil. *)
Lemma all_exited (gs : list Goroutine) :
  length (List.filter gLive gs) = 0 ->
  length (sentFailures gs) = 0 ->
  Forall (fun g => g = GExit (gHandler g) None) gs.
Proof.
  induction gs as [|g gs IH]; [constructor|].
  change (g :: gs) with ([g] ++ gs) at 2.
  rewrite sentFailures_app, length_app. cbn [List.filter].
  destruct g as [h|h e|h e|h e|h [e|]]; cbn; try lia.
  intros Hlive Hsent. constructor; [done|]. by apply IH.
Qed.

(** The steps of the main thread keep the invariant. *)
Lemma SchedInv_stepMain (chs : list InfoProvider) (s s' : Sched) :
  SchedInv chs s -> stepMain s = Some s' -> SchedInv chs s'.
Proof.
  intros (Hwg & Hbuf & Hres & Hpre & Hmain). unfold stepMain, SchedInv.
  destruct (main s) as [[|ch rest]|ch rest|ch rest| | |r] eqn:Hm.
  - (* loop over: wg.Wait *)
    intros [= <-]. cbn. destruct Hmain as (Hjobs & Hcount & _).
    repeat split; done.
  - (* next job *)
    intros [= <-]. cbn. destruct Hmain as (Hjobs & Hcount & _).
    repeat split; done.
  - (* drain before starting a job *)
    destruct Hmain as (Hjobs & Hcount & _).
    destruct (errors s) as [|[err|] q] eqn:Hq; intros [= <-]; cbn.
    + repeat split; done.
    + repeat split; try done.
      * intros e He. apply Hbuf. by right.
      * apply Hbuf. by left.
    + repeat split; try done.
      intros e He. apply Hbuf. by right.
  - (* ticket and go *)
    destruct Hmain as (Hjobs & Hcount & _).
    destruct (tickets s) as [|n]; [done|]. intros [= <-]. cbn.
    rewrite List.filter_app, length_app, map_app, sentFailures_app, length_app. cbn.
    split; [rewrite Hwg; lia|]. split; [|split; [|split; [|split; [|split]]]].
    + intros e He. destruct (Hbuf e He) as (g & Hin & Hg).
      exists g. split; [|done]. apply in_or_app. by left.
    + apply Forall_app. split; [done|]. constructor; [|constructor]. done.
    + exists rest. by rewrite <- app_assoc.
    + by rewrite <- app_assoc.
    + rewrite Nat.add_0_r. exact Hcount.
    + done.
  - (* wg.Wait *)
    destruct Hmain as (Hjobs & Hcount & _).
    destruct (wg s) as [|n] eqn:Hn; [|done]. intros [= <-]. cbn.
    repeat split; done.
  - (* the final drain *)
    destruct Hmain as (Hjobs & Hcount & Hfinal). specialize (Hfinal eq_refl).
    destruct (errors s) as [|[err|] q] eqn:Hq; intros [= <-]; cbn.
    + split; [done|]. split; [done|]. split; [done|]. split; [done|].
      cbn in Hjobs. rewrite app_nil_r in Hjobs. split; [done|].
      apply all_exited; [lia|]. by rewrite <- Hcount.
    + repeat split; try done.
      * intros e He. apply Hbuf. by right.
      * apply Hbuf. by left.
    + repeat split; try done.
      intros e He. apply Hbuf. by right.
  - done.
Qed.

Lemma SchedInv_start (chs : list InfoProvider) (w : World) :
  SchedInv chs (Infos_start chs w).
Proof.
  unfold SchedInv, Infos_start. cbn.
  repeat split; try done. by exists chs.
Qed.

Lemma SchedInv_steps (chs : list InfoProvider) (schedule : list Thread) (s s' : Sched) :
  SchedInv chs s -> steps schedule s = Some s' -> SchedInv chs s'.
Proof.
  revert s. induction schedule as [|t schedule IH]; intros s Hinv; simpl.
  - by intros [= <-].
  - destruct (step t s) as [s1|] eqn:Hstep; [|done].
    apply IH. destruct t as [|i]; simpl in Hstep.
    + by apply SchedInv_stepMain with s.
    + by apply SchedInv_stepGo with i s.
Qed.

(** X25.  What [Infos] returns under any schedule.  If it returns nil, every job
    of the list has been started, in order, and its copy has returned nil.
    If it returns an error, that error is what the copy of one of the
    started jobs returned.  A recorded outcome is the value of
    [copyObject] on that job. *)
Lemma Infos_return_sound (chs : list InfoProvider) (schedule : list Thread)
    (w : World) (s : Sched) (r : option error) :
  steps schedule (Infos_start chs w) = Some s ->
  main s = MReturn r ->
  match r with
  | None => jobResults s = map (fun ch => (ch, Some None)) chs
  | Some e => exists ch, In (ch, Some (Some e)) (jobResults s) /\ In ch chs
  end
  /\ Forall (fun job => forall res, snd job = Some res ->
                exists w0, fst (copyObject (fst job) w0) = res) (jobResults s).
Proof.
  intros Hrun Hret.
  pose proof (SchedInv_steps chs schedule _ s (SchedInv_start chs w) Hrun)
    as (_ & _ & Hres & (rest & Hpre) & Hmain).
  rewrite Hret in Hmain. unfold jobResults. split.
  - destruct r as [e|].
    + destruct Hmain as (g & Hin & Hg). exists (gHandler g). split.
      * apply in_map_iff. exists g. by rewrite Hg.
      * rewrite <- Hpre. apply in_or_app. left. by apply in_map.
    + destruct Hmain as [Hjobs Hall]. rewrite <- Hjobs, map_map.
      apply map_ext_in. intros g Hin.
      rewrite Forall_forall in Hall. rewrite (Hall g) at 2; [done|].
      by apply list_elem_of_In.
  - rewrite Forall_map. eapply Forall_impl; [exact Hres|]. done.
Qed.

(** Every step uses up one of the steps left: a run of [Infos] on [n] jobs
    has at most [8 * n + 3] steps. *)
Lemma step_decreases (t : Thread) (s s' : Sched) :
  step t s = Some s' -> stepsLeft s' < stepsLeft s.
Proof.
  destruct t as [|i]; simpl.
  - unfold stepMain, stepsLeft.
    destruct (main s) as [[|ch rest]|ch rest|ch rest| | |r].
    + intros [= <-]. cbn [main goroutines errors mainSteps length]. lia.
    + intros [= <-]. cbn [main goroutines errors mainSteps length]. lia.
    + destruct (errors s) as [|[err|] q]; intros [= <-];
        cbn [main goroutines errors mainSteps length]; lia.
    + destruct (tickets s); [done|]. intros [= <-].
      cbn [main goroutines errors mainSteps length].
      rewrite map_app, list_sum_app. cbn [map gSteps].
      change (list_sum [5]) with 5. lia.
    + destruct (wg s); [|done]. intros [= <-].
      cbn [main goroutines errors mainSteps length]. lia.
    + destruct (errors s) as [|[err|] q]; intros [= <-];
        cbn [main goroutines errors mainSteps length]; lia.
    + done.
  - intros Hstep.
    destruct (stepGo_cases i s s' Hstep)
      as (l1 & g & l2 & g' & Hgs & Hgs' & Hm & _ & Hcases).
    unfold stepsLeft. rewrite Hgs, Hgs', Hm, !map_app, !list_sum_app. cbn [map].
    destruct Hcases as [(h & -> & -> & -> & _)|[(h & e & -> & -> & -> & _)
      |[(h & e & -> & -> & -> & _)|(h & e & -> & -> & -> & _)]]];
      rewrite ?length_app, !list_sum_cons; cbn [gSteps length]; lia.
Qed.

Lemma steps_bounded (schedule : list Thread) (s s' : Sched) :
  steps schedule s = Some s' -> length schedule + stepsLeft s' <= stepsLeft s.
Proof.
  revert s. induction schedule as [|t schedule IH]; intros s; simpl.
  - intros [= <-]. lia.
  - destruct (step t s) as [s1|] eqn:Hstep; [|done]. intros Hrun.
    apply IH in Hrun. apply step_decreases in Hstep. lia.
Qed.

Lemma ChannelInv_step (t : Thread) (s s' : Sched) :
  ChannelInv s -> step t s = Some s' -> ChannelInv s'.
Proof.
  intros [Htickets Hbuf]. unfold ChannelInv. destruct t as [|i]; simpl.
  - unfold stepMain.
    destruct (main s) as [[|ch rest]|ch rest|ch rest| | |r].
    + by intros [= <-].
    + by intros [= <-].
    + destruct (errors s) as [|[err|] q]; intros [= <-]; cbn in *; split; lia.
    + destruct (tickets s); [done|]. intros [= <-].
      cbn [tickets goroutines errors]. rewrite !List.filter_app, !length_app.
      cbn. split; lia.
    + destruct (wg s); [|done]. by intros [= <-].
    + destruct (errors s) as [|[err|] q]; intros [= <-]; cbn in *; split; lia.
    + done.
  - unfold stepGo. destruct (goroutines s !! i) as [g|] eqn:Hi; [|done].
    pose proof (take_drop_middle _ _ _ Hi) as Hsplit.
    pose proof (lookup_lt_Some _ _ _ Hi) as Hlt.
    rewrite <- Hsplit in Htickets, Hbuf.
    rewrite !List.filter_app, !length_app in Htickets, Hbuf.
    destruct g as [h|h e|h e|h e|h e].
    + destruct (copyObject h (world s)) as [err w']. intros [= <-].
      cbn [tickets goroutines errors]. rewrite insert_take_drop by done.
      rewrite !List.filter_app, !length_app. cbn in *. split; lia.
    + destruct (decide _); [|done]. intros [= <-].
      cbn [tickets goroutines errors]. rewrite insert_take_drop by done.
      rewrite !List.filter_app, !length_app. cbn in *. split; lia.
    + destruct (decide _); [|done]. intros [= <-].
      cbn [tickets goroutines errors]. rewrite insert_take_drop by done.
      rewrite !List.filter_app, !length_app. cbn in *. split; lia.
    + intros [= <-].
      cbn [tickets goroutines errors]. rewrite insert_take_drop by done.
      rewrite !List.filter_app, !length_app. cbn in *. split; lia.
    + done.
Qed.

Lemma ChannelInv_steps (schedule : list Thread) (s s' : Sched) :
  ChannelInv s -> steps schedule s = Some s' -> ChannelInv s'.
Proof.
  revert s. induction schedule as [|t schedule IH]; intros s Hinv; simpl.
  - by intros [= <-].
  - destruct (step t s) as [s1|] eqn:Hstep; [|done].
    apply IH. by apply ChannelInv_step with t s.
Qed.

(** X26.  With at most sixteen jobs the run never blocks for good: as long as
    [Infos] has not returned, some thread can take a step. *)
Lemma Infos_progress_small (chs : list InfoProvider) (schedule : list Thread)
    (w : World) (s : Sched) :
  length chs <= maxParallelJobsCount * 2 ->
  steps schedule (Infos_start chs w) = Some s ->
  (exists r, main s = MReturn r) \/ (exists t s', step t s = Some s').
Proof.
  intros Hsmall Hrun.
  pose proof (SchedInv_steps chs schedule _ s (SchedInv_start chs w) Hrun)
    as (Hwg & _ & _ & (rest & Hpre) & _).
  assert (Hchan : ChannelInv s).
  { apply (ChannelInv_steps schedule (Infos_start chs w)); [|done].
    split; [reflexivity|cbn; lia]. }
  destruct Hchan as [Htickets Hbuf].
  assert (Hstarted : length (goroutines s) <= length chs).
  { rewrite <- Hpre, length_app, length_map. lia. }
  assert (Hgo : forall i g, goroutines s !! i = Some g -> gLive g = true ->
                  exists s', stepGo i s = Some s').
  { intros i g Hi Hlive. unfold stepGo. rewrite Hi.
    unfold maxParallelJobsCount in *.
    destruct (filter_counts gHolding _ _ _ Hi) as [Hhold _].
    destruct (filter_counts gSent _ _ _ Hi) as [_ Hunsent].
    destruct g as [h|h e|h e|h e|h e]; [| | | |done].
    - destruct (copyObject h (world s)). by eexists.
    - specialize (Hhold eq_refl). destruct (decide _); [by eexists|]. lia.
    - specialize (Hunsent eq_refl). destruct (decide _); [by eexists|]. lia.
    - by eexists. }
  destruct (main s) as [[|ch more]|ch more|ch more| | |r] eqn:Hm.
  - right. exists TMain. simpl. unfold stepMain. rewrite Hm. by eexists.
  - right. exists TMain. simpl. unfold stepMain. rewrite Hm. by eexists.
  - right. exists TMain. simpl. unfold stepMain. rewrite Hm.
    destruct (errors s) as [|[err|] q]; by eexists.
  - right. destruct (tickets s) as [|n] eqn:Hn.
    + destruct (filter_witness gHolding (goroutines s)) as (i & g & Hi & Hg).
      { unfold maxParallelJobsCount in *. lia. }
      destruct (Hgo i g Hi) as [s' Hs']; [by destruct g|].
      by exists (TGo i), s'.
    + exists TMain. simpl. unfold stepMain. rewrite Hm, Hn. by eexists.
  - right. destruct (wg s) as [|n] eqn:Hn.
    + exists TMain. simpl. unfold stepMain. rewrite Hm, Hn. by eexists.
    + destruct (filter_witness gLive (goroutines s)) as (i & g & Hi & Hg); [lia|].
      destruct (Hgo i g Hi Hg) as [s' Hs']. by exists (TGo i), s'.
  - right. exists TMain. simpl. unfold stepMain. rewrite Hm.
    destruct (errors s) as [|[err|] q]; by eexists.
  - left. by exists r.
Qed.

End Scheduler.

(** C3, where the code fails.  Seventeen jobs whose copies all succeed, the
    goroutines preempted between releasing their ticket and sending their
    result: the main thread reaches [wg.Wait], sixteen results fill the
    buffer of [errors], the seventeenth goroutine blocks on its send and
    never calls [wg.Done].  Every copy has completed without error, no
    thread can move, and [Infos] returns under no continuation of the
    schedule. *)
Theorem Infos_deadlock :
  exists s,
    @steps specUploads deadlockSchedule
      (Infos_start seventeenJobs (exampleWorld VersioningEnabled)) = Some s
    /\ main s = MWait
    /\ wg s = 1
    /\ errors s = repeat None 16
    /\ goroutines s !! 16 = Some (GError exampleJob None)
    /\ jobResults s = map (fun ch => (ch, Some None)) seventeenJobs
    /\ (forall t, @step specUploads t s = None)
    /\ (forall schedule,
          @Infos specUploads seventeenJobs (deadlockSchedule ++ schedule)
            (exampleWorld VersioningEnabled) = None).
Proof.
  destruct (@steps specUploads deadlockSchedule
              (Infos_start seventeenJobs (exampleWorld VersioningEnabled)))
    as [s|] eqn:Hrun; [|by vm_compute in Hrun].
  assert (Hfacts : main s = MWait /\ wg s = 1 /\ errors s = repeat None 16
                   /\ goroutines s !! 16 = Some (GError exampleJob None)
                   /\ jobResults s = map (fun ch => (ch, Some None)) seventeenJobs
                   /\ @stuck specUploads s = true).
  { vm_compute in Hrun. injection Hrun as <-. by vm_compute. }
  destruct Hfacts as (Hmain & Hwg & Herrors & Hlast & Hjobs & Hstuck).
  pose proof (@stuck_sound specUploads s Hstuck) as Hnone.
  exists s. do 7 (split; [done|]).
  intros schedule. unfold Infos. rewrite steps_app, Hrun.
  destruct schedule as [|t schedule]; simpl.
  - by rewrite Hmain.
  - by rewrite Hnone.
Qed.

(** * Further properties of the code *)

(** ** The versioning mode, once resolved *)

Section ResolvedMode.

Lemma world_eq (a b : World) : trace a = trace b -> configs a = configs b -> a = b.
Proof. destruct a, b. simpl. by intros -> ->. Qed.

(** A mode other than the empty string makes [isVersioningEnabled] a pure
    test. *)
Lemma isVersioningEnabled_pure (folder : Folder) (w : World) :
  modeOf folder w <> VersioningDefault ->
  isVersioningEnabled folder w = (String.eqb (modeOf folder w) VersioningEnabled, w).
Proof.
  intros Hmode.
  pose proof (isVersioningEnabled_value folder w) as Hv.
  pose proof (isVersioningEnabled_trace folder w) as Ht.
  pose proof (isVersioningEnabled_configs folder w) as Hc.
  destruct (String.eqb_spec (modeOf folder w) VersioningDefault) as [Hd|_]; [done|].
  destruct (isVersioningEnabled folder w) as [v w1]. cbn [fst snd] in *.
  rewrite orb_false_r in Hv. subst v. f_equal. by apply world_eq.
Qed.

Lemma writeEnableVersioning_again (l : loc) (v v' : string) (w : World) :
  snd (writeEnableVersioning l v (snd (writeEnableVersioning l v' w))) =
    snd (writeEnableVersioning l v w).
Proof.
  unfold writeEnableVersioning. cbn [fst snd trace configs].
  rewrite lookup_total_insert_eq. cbn. by rewrite insert_insert_eq.
Qed.

(** X1.  A successful versioning query is cached: the next call of
    [isVersioningEnabled] returns the same answer, issues no request and
    changes nothing. *)
Theorem isVersioningEnabled_cached (folder : Folder) (w : World)
    (out : GetBucketVersioningOutput) :
  modeOf folder w = VersioningDefault ->
  GetBucketVersioning (s3API folder) (trace w) (bucket folder) = Ok out ->
  isVersioningEnabled folder (snd (isVersioningEnabled folder w)) =
    isVersioningEnabled folder w.
Proof.
  intros Hmode Hquery.
  pose proof (isVersioningEnabled_mode folder w) as Hafter.
  pose proof (isVersioningEnabled_value folder w) as Hv.
  rewrite Hmode, Hquery in Hafter. rewrite Hmode in Hv.
  destruct (isVersioningEnabled folder w) as [v w1]. cbn in Hafter, Hv.
  cbn [fst snd]. rewrite isVersioningEnabled_pure.
  - rewrite Hafter, Hv. by destruct (reportsEnabled folder w).
  - rewrite Hafter. by destruct (reportsEnabled folder w).
Qed.

(** X2.  A mode configured as anything but the empty string is never
    checked against the bucket: [isVersioningEnabled] issues no request,
    writes nothing and answers true for ["enabled"] only, so that any other
    value, ["Enabled"] say, means disabled. *)
Theorem isVersioningEnabled_configured (folder : Folder) (w : World) :
  modeOf folder w <> VersioningDefault ->
  snd (isVersioningEnabled folder w) = w
  /\ (fst (isVersioningEnabled folder w) = true <-> modeOf folder w = "enabled").
Proof.
  intros Hmode. rewrite isVersioningEnabled_pure by done. cbn [fst snd].
  split; [done|]. apply String.eqb_eq.
Qed.

(** X3.  [SetVersioningEnabled] always leaves a resolved mode: enabled or
    disabled, never unresolved, whatever the mode was and whatever the store
    answered.  A later [isVersioningEnabled] is a pure test. *)
Theorem SetVersioningEnabled_resolves (folder : Folder) (enable : bool) (w : World) :
  let w1 := snd (SetVersioningEnabled folder enable w) in
  (modeOf folder w1 = VersioningEnabled \/ modeOf folder w1 = VersioningDisabled)
  /\ isVersioningEnabled folder w1 =
       (String.eqb (modeOf folder w1) VersioningEnabled, w1).
Proof.
  cbn zeta. pose proof (SetVersioningEnabled_mode folder enable w) as Hmode.
  assert (Hres : modeOf folder (snd (SetVersioningEnabled folder enable w))
                   = VersioningEnabled
                 \/ modeOf folder (snd (SetVersioningEnabled folder enable w))
                   = VersioningDisabled).
  { rewrite Hmode. destruct (_ && _); [by left|by right]. }
  split; [done|]. apply isVersioningEnabled_pure.
  destruct Hres as [-> | ->]; done.
Qed.

(** [SetVersioningEnabled] ends with a write of the mode it leaves. *)
Lemma SetVersioningEnabled_writes (folder : Folder) (enable : bool) (w : World) :
  exists w0,
    snd (SetVersioningEnabled folder enable w) =
      snd (writeEnableVersioning (config folder)
             (modeOf folder (snd (SetVersioningEnabled folder enable w))) w0).
Proof.
  unfold SetVersioningEnabled, bind. destruct enable.
  - destruct (isVersioningEnabled folder w) as [[|] w0]; exists w0;
      cbv beta iota; by rewrite modeOf_write.
  - exists w. unfold ret. cbv beta iota. by rewrite modeOf_write.
Qed.

(** The world after [SetVersioningEnabled] on a resolved mode. *)
Lemma SetVersioningEnabled_on_resolved (folder : Folder) (enable : bool) (w : World) :
  modeOf folder w <> VersioningDefault ->
  snd (SetVersioningEnabled folder enable w) =
    snd (writeEnableVersioning (config folder)
           (if enable && String.eqb (modeOf folder w) VersioningEnabled
            then VersioningEnabled else VersioningDisabled) w).
Proof.
  intros Hmode. unfold SetVersioningEnabled, bind. destruct enable; cbn [andb].
  - rewrite isVersioningEnabled_pure by done.
    by destruct (String.eqb (modeOf folder w) VersioningEnabled).
  - done.
Qed.

(** X4.  [SetVersioningEnabled] is idempotent: a second call with the same
    argument issues no request and leaves the world as the first call left
    it. *)
Theorem SetVersioningEnabled_idempotent (folder : Folder) (enable : bool) (w : World) :
  let w1 := snd (SetVersioningEnabled folder enable w) in
  snd (SetVersioningEnabled folder enable w1) = w1.
Proof.
  cbn zeta. pose proof (SetVersioningEnabled_mode folder enable w) as Hmode.
  destruct (SetVersioningEnabled_writes folder enable w) as [w0 Hw0].
  set (w1 := snd (SetVersioningEnabled folder enable w)) in *.
  set (resolved := enable && _) in Hmode.
  rewrite SetVersioningEnabled_on_resolved; [|rewrite Hmode; by destruct resolved].
  assert (Hsame : (if enable && String.eqb (modeOf folder w1) VersioningEnabled
                   then VersioningEnabled else VersioningDisabled)
                  = modeOf folder w1).
  { rewrite Hmode. subst resolved. destruct enable; cbn [andb]; [|done].
    by destruct (_ || _). }
  rewrite Hsame. rewrite Hw0 at 2 3. by rewrite writeEnableVersioning_again.
Qed.

(** X5.  Disabling is final for [SetVersioningEnabled]: after
    [SetVersioningEnabled(false)], [SetVersioningEnabled(true)] leaves the
    mode disabled, asks the store nothing and changes nothing. *)
Theorem SetVersioningEnabled_false_is_final (folder : Folder) (w : World) :
  let w1 := snd (SetVersioningEnabled folder false w) in
  snd (SetVersioningEnabled folder true w1) = w1
  /\ modeOf folder w1 = VersioningDisabled.
Proof.
  cbn zeta. pose proof (SetVersioningEnabled_mode folder false w) as Hmode.
  cbn [andb] in Hmode.
  destruct (SetVersioningEnabled_writes folder false w) as [w0 Hw0].
  set (w1 := snd (SetVersioningEnabled folder false w)) in *.
  split; [|done].
  rewrite SetVersioningEnabled_on_resolved by (by rewrite Hmode).
  rewrite Hmode in Hw0 |- *. cbn [andb String.eqb].
  change (String.eqb VersioningDisabled VersioningEnabled) with false.
  cbn [andb]. rewrite Hw0 at 1 2. by rewrite writeEnableVersioning_again.
Qed.

End ResolvedMode.

Lemma isVersioningEnabled_cached_witness :
  modeOf (exampleFolder enabledAPI) (exampleWorld VersioningDefault) = VersioningDefault
  /\ isVersioningEnabled (exampleFolder enabledAPI)
       (snd (isVersioningEnabled (exampleFolder enabledAPI)
               (exampleWorld VersioningDefault))) =
     isVersioningEnabled (exampleFolder enabledAPI) (exampleWorld VersioningDefault).
Proof.
  split; [reflexivity|].
  apply (isVersioningEnabled_cached (exampleFolder enabledAPI)
           (exampleWorld VersioningDefault)
           (mkGetBucketVersioningOutput (Some "Enabled"))); reflexivity.
Defined.

Lemma isVersioningEnabled_configured_witness :
  modeOf (exampleFolder enabledAPI) (exampleWorld "Enabled") <> VersioningDefault
  /\ snd (isVersioningEnabled (exampleFolder enabledAPI) (exampleWorld "Enabled"))
     = exampleWorld "Enabled"
  /\ (fst (isVersioningEnabled (exampleFolder enabledAPI) (exampleWorld "Enabled")) = true
      <-> modeOf (exampleFolder enabledAPI) (exampleWorld "Enabled") = "enabled").
Proof.
  split; [discriminate|].
  apply (isVersioningEnabled_configured (exampleFolder enabledAPI) (exampleWorld "Enabled")).
  discriminate.
Defined.

(** ** Keys and names *)

Section Names.

Lemma substring_all (s : string) : String.substring 0 (String.length s) s = s.
Proof. induction s as [|c s IH]; simpl; [done|]. by rewrite IH. Qed.

Lemma prefix_append (p s : string) : String.prefix p (p +:+ s) = true.
Proof.
  induction p as [|c p IH]; simpl; [by destruct s|].
  destruct (Ascii.ascii_dec c c); done.
Qed.

Lemma substring_after (p s : string) :
  String.substring (String.length p) (String.length (p +:+ s) - String.length p) (p +:+ s)
  = s.
Proof.
  induction p as [|c p IH]; simpl.
  - rewrite Nat.sub_0_r. apply substring_all.
  - exact IH.
Qed.

(** [strings.TrimPrefix] undoes the concatenation. *)
Lemma TrimPrefix_append (p s : string) : TrimPrefix (p +:+ s) p = s.
Proof. unfold TrimPrefix. rewrite prefix_append. apply substring_after. Qed.

Lemma prefix_split (p s : string) :
  String.prefix p s = true -> exists r, s = p +:+ r.
Proof.
  revert s. induction p as [|c p IH]; intros s; simpl.
  - intros _. by exists s.
  - destruct s as [|d s]; [done|]. simpl.
    destruct (Ascii.ascii_dec c d) as [->|]; [|done].
    intros Hp. destruct (IH s Hp) as [r ->]. by exists r.
Qed.

Lemma append_same (p s : string) : p +:+ s = p -> s = "".
Proof.
  intros Heq. apply (f_equal String.length) in Heq. rewrite append_length in Heq.
  destruct s; [done|]. simpl in Heq. lia.
Qed.

Lemma append_empty (p : string) : p +:+ "" = p.
Proof.
  induction p as [|c p IH]; [done|].
  change (String c (p +:+ "") = String c p). by f_equal.
Qed.

(** [ReadObject] sends one request, for the folder's path followed by the
    name. *)
Lemma ReadObject_trace (folder : Folder) (objectRelativePath : string) (w : World) :
  trace (snd (ReadObject folder objectRelativePath w)) =
    trace w ++ [ReqGetObject (bucket folder) (path folder +:+ objectRelativePath)].
Proof.
  unfold ReadObject, bind, call, readConfig. cbn [fst snd].
  destruct (GetObject _ _ _ _) as [body|err].
  - by destruct (RangeBatchEnabled _).
  - by destruct (isAwsNotExist err).
Qed.

(** The name reported for a key under the folder's path leads back to the
    key. *)
Lemma entryObject_name (folder : Folder) (e : Entry) :
  String.prefix (path folder) (entryKey e) = true ->
  path folder +:+ GetName (entryObject folder e) = entryKey e.
Proof.
  intros Hprefix. destruct (prefix_split _ _ Hprefix) as [r Hr].
  assert (Hname : GetName (entryObject folder e) = r).
  { destruct e; cbn [entryObject GetName entryKey] in *;
      rewrite Hr; apply TrimPrefix_append. }
  by rewrite Hname.
Qed.

End Names.

Section ListedNames.

Context `{StoragePaths}.

(** What [ListFolder] returns when the store does not fail the listing with
    an error other than not-found. *)
Lemma ListFolder_objects (folder : Folder) (w : World) :
  let r := isVersioningEnabled folder w in
  let a := listingAnswer folder (fst r) (snd r) in
  (forall err, snd a = Some err -> NotFoundSignal err) ->
  fst (fst (fst (ListFolder folder w))) =
    map (entryObject folder) (List.filter (notSelf folder) (fst (fst a))).
Proof.
  cbn zeta. intros Hok. rewrite ListFolder_closed. cbn [fst snd].
  unfold listingError.
  destruct (snd (listingAnswer folder _ _)) as [err|]; [|done].
  by rewrite (isAwsNotExist_true err (Hok err eq_refl)).
Qed.

(** X6.  Listing and reading agree on names.  When the store lists only
    keys under the folder's path and does not fail the listing, the objects
    [ListFolder] returns are, one for one and in order, the listed entries
    other than the folder's own prefix; for each of them the folder's path
    followed by the returned name is the listed key, and [ReadObject] on
    the returned name requests exactly that key. *)
Theorem listed_name_reads_listed_key (folder : Folder) (w : World) :
  let r := isVersioningEnabled folder w in
  let a := listingAnswer folder (fst r) (snd r) in
  (forall err, snd a = Some err -> NotFoundSignal err) ->
  Forall (fun e => String.prefix (path folder) (entryKey e) = true) (fst (fst a)) ->
  Forall2 (fun e o =>
             path folder +:+ GetName o = entryKey e
             /\ forall w',
                  trace (snd (ReadObject folder (GetName o) w')) =
                    trace w' ++ [ReqGetObject (bucket folder) (entryKey e)])
    (List.filter (notSelf folder) (fst (fst a)))
    (fst (fst (fst (ListFolder folder w)))).
Proof.
  cbn zeta. intros Hok Hkeys. rewrite (ListFolder_objects folder w Hok).
  induction (fst (fst (listingAnswer folder _ _))) as [|e es IH]; [constructor|].
  apply Forall_cons in Hkeys. destruct Hkeys as [Hkey Hkeys].
  cbn [List.filter]. destruct (notSelf folder e); [|by apply IH].
  cbn [map]. constructor; [|by apply IH].
  pose proof (entryObject_name folder e Hkey) as Hname.
  split; [exact Hname|]. intros w'. by rewrite ReadObject_trace, Hname.
Qed.

(** X7.  Putting and listing agree on names.  After [PutObject] under a
    name that is not empty, if the store lists the key of the upload and
    does not fail the listing, [ListFolder] returns an object of that
    name. *)
Theorem put_name_is_listed_name (folder : Folder) (name : string) (content : Reader)
    (w : World) (key : string) (e : Entry) :
  let w1 := snd (PutObject folder name content w) in
  let r := isVersioningEnabled folder w1 in
  let a := listingAnswer folder (fst r) (snd r) in
  name <> "" ->
  last (trace w1) = Some (ReqUpload (bucket folder) key content) ->
  (forall err, snd a = Some err -> NotFoundSignal err) ->
  In e (fst (fst a)) ->
  entryKey e = key ->
  exists o,
    In o (fst (fst (fst (ListFolder folder (snd (PutObject folder name content w))))))
    /\ GetName o = name.
Proof.
  cbn zeta. intros Hname Hlast Hok Hin Hkey.
  rewrite (ListFolder_objects folder _ Hok).
  unfold PutObject, call in Hlast. cbn [snd trace] in Hlast.
  rewrite last_snoc in Hlast. injection Hlast as Hupload.
  rewrite <- Hupload in Hkey.
  exists (entryObject folder e). split.
  - apply in_map. apply List.filter_In. split; [exact Hin|].
    unfold notSelf. rewrite Hkey. apply negb_true_iff, String.eqb_neq.
    intros Heq. by apply append_same in Heq.
  - assert (Hprefix : String.prefix (path folder) (entryKey e) = true).
    { rewrite Hkey. apply prefix_append. }
    pose proof (entryObject_name folder e Hprefix) as Hfull.
    rewrite Hkey in Hfull. clear -Hfull.
    revert Hfull. generalize (GetName (entryObject folder e)). intros n.
    induction (path folder) as [|c p IH]; [done|].
    intros Heq. injection Heq as Heq. by apply IH.
Qed.

End ListedNames.

Lemma listed_name_reads_listed_key_witness :
  Forall2 (fun e o =>
             "base/" +:+ GetName o = entryKey e
             /\ forall w',
                  trace (snd (ReadObject (exampleFolder brokenVersioningAPI)
                                (GetName o) w')) =
                    trace w' ++ [ReqGetObject "bucket" (entryKey e)])
    [EPlain (mkS3Object "base/a" 2%Z 10%Z)]
    (fst (fst (fst (@ListFolder specPaths (exampleFolder brokenVersioningAPI)
                      (exampleWorld VersioningDisabled))))).
Proof.
  apply (@listed_name_reads_listed_key specPaths (exampleFolder brokenVersioningAPI)
           (exampleWorld VersioningDisabled)).
  - intros err Herr. vm_compute in Herr. discriminate Herr.
  - repeat constructor.
Defined.

Lemma put_name_is_listed_name_witness :
  exists o,
    In o (fst (fst (fst (@ListFolder specPaths (exampleFolder brokenVersioningAPI)
                           (snd (PutObject (exampleFolder brokenVersioningAPI) "a"
                                   (Body "x") (exampleWorld VersioningDisabled)))))))
    /\ GetName o = "a".
Proof.
  apply (@put_name_is_listed_name specPaths (exampleFolder brokenVersioningAPI) "a"
           (Body "x") (exampleWorld VersioningDisabled) "base/a"
           (EPlain (mkS3Object "base/a" 2%Z 10%Z))).
  - discriminate.
  - reflexivity.
  - intros err Herr. vm_compute in Herr. discriminate Herr.
  - right. left. reflexivity.
  - reflexivity.
Defined.

(** ** More on [ListFolder] and [NewFolder] *)

Section ListFolderErrors.

Context `{StoragePaths}.

(** X8.  A not-found error of the listing is no error for [ListFolder]: it
    returns nil as error, together with the objects and sub-folders of the
    pages the store delivered before it failed (none for a prefix that does
    not exist yet). *)
Theorem ListFolder_not_found_is_no_error (folder : Folder) (w : World) (err : error) :
  let r := isVersioningEnabled folder w in
  let a := listingAnswer folder (fst r) (snd r) in
  snd a = Some err ->
  NotFoundSignal err ->
  fst (ListFolder folder w) =
    (map (entryObject folder) (List.filter (notSelf folder) (fst (fst a))),
     map (subFolderOf folder (snd r)) (snd (fst a)), None).
Proof.
  cbn zeta. intros Herr Hsignal. rewrite ListFolder_closed. cbn [fst snd].
  rewrite Herr. unfold listingError. by rewrite (isAwsNotExist_true _ Hsignal).
Qed.

(** X9.  Any other error of the listing fails [ListFolder]: it returns no
    object and no sub-folder, also none of the pages delivered before the
    failure, and the store's error wrapped in a message with the folder's
    path. *)
Theorem ListFolder_listing_error (folder : Folder) (w : World) (err : error) :
  let r := isVersioningEnabled folder w in
  snd (listingAnswer folder (fst r) (snd r)) = Some err ->
  ~ NotFoundSignal err ->
  fst (ListFolder folder w) =
    ([], [], Some (WrapError err ("failed to list s3 folder: '" +:+ path folder +:+ "'"))).
Proof.
  cbn zeta. intros Herr Hsignal. rewrite ListFolder_closed. cbn [fst snd].
  rewrite Herr. unfold listingError. by rewrite (isAwsNotExist_false _ Hsignal).
Qed.

(** X10.  [ListFolder] sends one listing request, however many pages the
    store delivers, after one versioning query if the mode is unresolved and
    none otherwise; the listing is the version-aware one exactly when
    versioning is enabled.  It writes nothing but the mode it resolves. *)
Theorem ListFolder_requests (folder : Folder) (w : World) :
  let r := isVersioningEnabled folder w in
  trace (snd (ListFolder folder w)) =
    trace w
    ++ (if String.eqb (modeOf folder w) VersioningDefault
        then [ReqGetBucketVersioning (bucket folder)] else [])
    ++ [if fst r
        then ReqListObjectVersionsPages (bucket folder) (path folder) "/"
        else plainListRequest folder (snd r)]
  /\ configs (snd (ListFolder folder w)) = configs (snd r).
Proof.
  cbn zeta. rewrite ListFolder_closed. cbn [fst snd trace configs]. split; [|done].
  rewrite isVersioningEnabled_trace. unfold listingRequest.
  destruct (String.eqb (modeOf folder w) VersioningDefault).
  - by rewrite <- app_assoc.
  - done.
Qed.

(** X11.  When [ListFolder] returns without error it returns one sub-folder
    per common prefix, in the order listed.  The path of a sub-folder is
    made from the listed prefix alone, which is a full key prefix, and the
    sub-folder shares the client, the uploader and the configuration of the
    folder; its bucket is the one the configuration names. *)
Theorem ListFolder_sub_folders (folder : Folder) (w : World) :
  let r := isVersioningEnabled folder w in
  snd (fst (ListFolder folder w)) = None ->
  Forall2 (fun prefix sub =>
             path sub = AddDelimiterToPath (TrimPrefix prefix "/")
             /\ s3API sub = s3API folder
             /\ uploader sub = uploader folder
             /\ config sub = config folder
             /\ bucket sub = Bucket (configs (snd r) !!! config folder))
    (snd (fst (listingAnswer folder (fst r) (snd r))))
    (snd (fst (fst (ListFolder folder w)))).
Proof.
  cbn zeta. rewrite ListFolder_closed. cbn [fst snd].
  destruct (listingError folder _) as [err|]; [done|]. intros _. cbn [fst snd].
  induction (snd (fst (listingAnswer folder _ _))) as [|prefix prefixes IH];
    constructor; [|exact IH].
  by repeat split.
Qed.


End ListFolderErrors.

Lemma ListFolder_not_found_is_no_error_witness :
  fst (@ListFolder specPaths (exampleFolder missingPrefixAPI)
         (exampleWorld VersioningDisabled)) =
    ([mkObject "a" 2%Z 10%Z ""],
     [mkFolder missingPrefixAPI exampleUploader "bucket" "base/sub/" 0], None).
Proof.
  apply (@ListFolder_not_found_is_no_error specPaths (exampleFolder missingPrefixAPI)
           (exampleWorld VersioningDisabled)
           (AwsError "NoSuchKey" "The specified key does not exist.")).
  - reflexivity.
  - eexists. right. reflexivity.
Defined.

Lemma ListFolder_listing_error_witness :
  fst (@ListFolder specPaths (exampleFolder deniedListingAPI)
         (exampleWorld VersioningDisabled)) =
    ([], [], Some (WrapError (AwsError "AccessDenied" "Access Denied")
                     "failed to list s3 folder: 'base/'")).
Proof.
  apply (@ListFolder_listing_error specPaths (exampleFolder deniedListingAPI)
           (exampleWorld VersioningDisabled) (AwsError "AccessDenied" "Access Denied")).
  - reflexivity.
  - intros [message [Heq|Heq]]; discriminate Heq.
Defined.

Lemma ListFolder_sub_folders_witness :
  snd (fst (@ListFolder specPaths (exampleFolder brokenVersioningAPI)
              (exampleWorld VersioningDisabled))) = None
  /\ Forall2 (fun prefix sub =>
                path sub = specAddDelimiterToPath (TrimPrefix prefix "/")
                /\ s3API sub = brokenVersioningAPI
                /\ uploader sub = exampleUploader
                /\ config sub = 0
                /\ bucket sub = "bucket")
       ["base/sub/"]
       (snd (fst (fst (@ListFolder specPaths (exampleFolder brokenVersioningAPI)
                         (exampleWorld VersioningDisabled))))).
Proof.
  split; [reflexivity|].
  apply (@ListFolder_sub_folders specPaths (exampleFolder brokenVersioningAPI)
           (exampleWorld VersioningDisabled)).
  reflexivity.
Defined.


(** ** More on [DeleteObjects] *)

Section DeletionIdentifiers.

Lemma PartsRun_unversioned_success (folder : Folder) (h : list Request)
    (parts : list (list string)) (issued : list Request) (r : option error) :
  PartsRun folder false h parts issued r ->
  r = None ->
  issued = map (unversionedBatch folder) parts.
Proof.
  induction 1 as [h|h part parts err Hdel|h part parts issued r Hdel Hrun IH];
    intros Hr; [done|done|].
  cbn [batchListings batchIds app map]. by rewrite (IH Hr).
Qed.

Lemma unversionedBatch_keys (folder : Folder) (parts : list (list string)) :
  concat (deleteCalls (map (unversionedBatch folder) parts)) =
    map (unversionedId folder) (concat parts).
Proof.
  induction parts as [|part parts IH]; [done|].
  cbn [map concat]. rewrite map_app, <- IH.
  change (unversionedBatch folder part :: map (unversionedBatch folder) parts)
    with ([unversionedBatch folder part] ++ map (unversionedBatch folder) parts).
  rewrite deleteCalls_app. reflexivity.
Qed.

(** X13.  Without versioning, when [DeleteObjects] returns nil it has sent
    one batch-delete request per part and nothing else, and the batches
    carry, in list order, every given key once, under the folder's path and
    with no version id. *)
Theorem DeleteObjects_unversioned_success (folder : Folder)
    (objectRelativePaths : list string) (w : World) :
  fst (isVersioningEnabled folder w) = false ->
  fst (DeleteObjects folder objectRelativePaths w) = None ->
  trace (snd (DeleteObjects folder objectRelativePaths w)) =
    trace (snd (isVersioningEnabled folder w))
    ++ map (unversionedBatch folder) (partitionStrings objectRelativePaths 1000)
  /\ concat (deleteCalls (map (unversionedBatch folder)
                            (partitionStrings objectRelativePaths 1000))) =
       map (fun key => mkObjectIdentifier (path folder +:+ key) None)
         (concat (partitionStrings objectRelativePaths 1000)).
Proof.
  unfold DeleteObjects, bind.
  destruct (isVersioningEnabled folder w) as [versioned w1]. cbn [fst snd].
  intros -> Hok.
  destruct (DeleteObjects_parts_run folder false
              (partitionStrings objectRelativePaths 1000) w1) as (issued & Hw & Hrun).
  rewrite (PartsRun_unversioned_success _ _ _ _ _ Hrun Hok) in Hw.
  split; [by rewrite Hw|apply unversionedBatch_keys].
Qed.

End DeletionIdentifiers.

Lemma DeleteObjects_unversioned_success_witness :
  fst (isVersioningEnabled (exampleFolder enabledAPI) (exampleWorld VersioningDisabled))
    = false
  /\ trace (snd (DeleteObjects (exampleFolder enabledAPI) ["a"; "b"]
                   (exampleWorld VersioningDisabled))) =
       [ReqDeleteObjects "bucket"
          [mkObjectIdentifier "base/a" None; mkObjectIdentifier "base/b" None]].
Proof.
  split; [reflexivity|].
  destruct (DeleteObjects_unversioned_success (exampleFolder enabledAPI) ["a"; "b"]
              (exampleWorld VersioningDisabled) eq_refl eq_refl) as [Htrace _].
  exact Htrace.
Defined.

(** ** [copyObject], [BuildCopyingInfos] and the no-op functions *)

Section CopyOne.
Context `{InternalUploads}.

(** X15.  When the source cannot be read, [copyObject] returns the error of
    [ReadObject] (the not-found error under the full key, or the wrapped
    store error) and uploads nothing: the read is its only request. *)
Theorem copyObject_read_failure (ch : InfoProvider) (w : World) (err : error) :
  GetObject (s3API (From ch)) (trace w) (bucket (From ch))
    (path (From ch) +:+ GetName (SrcObj ch)) = Err err ->
  copyObject ch w =
    (Some (if isAwsNotExist err
           then ObjectNotFoundError (path (From ch) +:+ GetName (SrcObj ch))
           else Wrapf err ("failed to read object: '"
                           +:+ (path (From ch) +:+ GetName (SrcObj ch))
                           +:+ "' from S3")),
     mkWorld (trace w ++ [ReqGetObject (bucket (From ch))
                            (path (From ch) +:+ GetName (SrcObj ch))])
       (configs w)).
Proof.
  intros Hget. unfold copyObject, ReadObject, bind, call. cbn [fst snd].
  rewrite Hget. by destruct (isAwsNotExist err).
Qed.

(** X16.  When the source transformer fails, [copyObject] returns its error
    and uploads nothing: the world is the one the read left. *)
Theorem copyObject_transform_failure (ch : InfoProvider) (w : World)
    (transform : SourceTransformerFunc) (objReadCloser : Reader) (err : error) :
  fst (ReadObject (From ch) (GetName (SrcObj ch)) w) = Ok objReadCloser ->
  SourceTransformer ch = Some transform ->
  transform objReadCloser = Err err ->
  copyObject ch w = (Some err, snd (ReadObject (From ch) (GetName (SrcObj ch)) w)).
Proof.
  intros Hread Htr Herr. unfold copyObject, bind.
  destruct (ReadObject (From ch) (GetName (SrcObj ch)) w) as [r w1].
  cbn [fst snd] in *. subst r. by rewrite Htr, Herr.
Qed.

(** A job with [NoopSourceTransformer] behaves as a job with no transformer
    at all. *)
Lemma copyObject_noop_transformer (from to : Folder) (object : Object)
    (name : string) (w : World) :
  copyObject (mkInfoProvider from (Some NoopSourceTransformer) to object name) w =
  copyObject (mkInfoProvider from None to object name) w.
Proof. reflexivity. Qed.

(** X18.  When the read and the transformer succeed and the uploader can be
    configured, [copyObject] is the upload of the transformed source under
    the job's target name, run after the read: it returns what [Upload]
    returns. *)
Theorem copyObject_uploads_transformed (ch : InfoProvider) (w : World)
    (transform : SourceTransformerFunc) (objReadCloser r : Reader)
    (uploader : InternalUploader) :
  fst (ReadObject (From ch) (GetName (SrcObj ch)) w) = Ok objReadCloser ->
  SourceTransformer ch = Some transform ->
  transform objReadCloser = Ok r ->
  ConfigureUploaderToFolder (To ch) = Ok uploader ->
  copyObject ch w =
    Upload uploader (targetName ch) r
      (snd (ReadObject (From ch) (GetName (SrcObj ch)) w)).
Proof.
  intros Hread Htr Hok Hup. unfold copyObject, bind.
  destruct (ReadObject (From ch) (GetName (SrcObj ch)) w) as [r0 w1].
  cbn [fst snd] in *. subst r0. rewrite Htr, Hok, Hup.
  destruct (Upload uploader (targetName ch) r w1) as [[e|] w2]; reflexivity.
Qed.

End CopyOne.

Lemma copyObject_read_failure_witness :
  @copyObject specUploads missingJob (exampleWorld VersioningDisabled) =
    (Some (ObjectNotFoundError "base/missing"),
     mkWorld [ReqGetObject "bucket" "base/missing"]
       (configs (exampleWorld VersioningDisabled))).
Proof.
  apply (@copyObject_read_failure specUploads missingJob
           (exampleWorld VersioningDisabled)
           (AwsError "NoSuchKey" "The specified key does not exist.")).
  reflexivity.
Defined.

Lemma copyObject_transform_failure_witness :
  @copyObject specUploads rejectedJob (exampleWorld VersioningDisabled) =
    (Some (PlainError "unsupported source"),
     mkWorld [ReqGetObject "bucket" "base/a"]
       (configs (exampleWorld VersioningDisabled))).
Proof.
  apply (@copyObject_transform_failure specUploads rejectedJob
           (exampleWorld VersioningDisabled) rejectingTransformer (Body "")
           (PlainError "unsupported source")); reflexivity.
Defined.

Lemma copyObject_uploads_transformed_witness :
  trace (snd (@copyObject specUploads
                (mkInfoProvider (exampleFolder enabledAPI) (Some NoopSourceTransformer)
                   (mkFolder enabledAPI exampleUploader "bucket" "copy/" 0)
                   (mkObject "a" 1%Z 3%Z "") "b")
                (exampleWorld VersioningDisabled))) =
    [ReqGetObject "bucket" "base/a"; ReqUpload "bucket" "copy/b" (Body "")].
Proof.
  rewrite (@copyObject_uploads_transformed specUploads
             (mkInfoProvider (exampleFolder enabledAPI) (Some NoopSourceTransformer)
                (mkFolder enabledAPI exampleUploader "bucket" "copy/" 0)
                (mkObject "a" 1%Z 3%Z "") "b")
             (exampleWorld VersioningDisabled) NoopSourceTransformer (Body "") (Body "")
             (mkFolder enabledAPI exampleUploader "bucket" "copy/" 0)
             eq_refl eq_refl eq_refl eq_refl).
  reflexivity.
Defined.

Section MoreCopyingInfos.

(** X19.  [BuildCopyingInfos] works object by object: the jobs for a list
    of objects followed by another are the jobs of the first followed by
    the jobs of the second. *)
Theorem BuildCopyingInfos_app (from to : Folder) (objects more : list Object)
    (filter : Object -> bool) (renameFunc : Object -> string)
    (sourceTransformer : option SourceTransformerFunc) :
  BuildCopyingInfos from to (objects ++ more) filter renameFunc sourceTransformer =
    BuildCopyingInfos from to objects filter renameFunc sourceTransformer
    ++ BuildCopyingInfos from to more filter renameFunc sourceTransformer.
Proof.
  unfold BuildCopyingInfos. rewrite fold_left_app.
  rewrite !(fold_left_snoc_filter filter
              (fun object => mkInfoProvider from sourceTransformer to object
                               (renameFunc object))).
  reflexivity.
Qed.

(** X20.  With [NoopRenameFunc] every job keeps the name of its source
    object as its target name. *)
Theorem NoopRenameFunc_keeps_names (from to : Folder) (objects : list Object)
    (filter : Object -> bool) (sourceTransformer : option SourceTransformerFunc) :
  Forall (fun ch => targetName ch = GetName (SrcObj ch))
    (BuildCopyingInfos from to objects filter (fun o => NoopRenameFunc (Some o))
       sourceTransformer).
Proof.
  unfold BuildCopyingInfos.
  rewrite (fold_left_snoc_filter filter
             (fun object => mkInfoProvider from sourceTransformer to object
                              (NoopRenameFunc (Some object)))).
  cbn [app]. apply Forall_forall. intros ch Hin.
  apply list_elem_of_In, in_map_iff in Hin. by destruct Hin as (o & <- & _).
Qed.

End MoreCopyingInfos.

(** ** More on [Infos] *)

Section Runs.
Context `{InternalUploads}.

Lemma insert_last {A : Type} (l : list A) (x y : A) :
  <[length l := y]> (l ++ [x]) = l ++ [y].
Proof. rewrite insert_app_r_alt by done. by rewrite Nat.sub_diag. Qed.

Lemma lookup_last {A : Type} (l : list A) (x : A) : (l ++ [x]) !! length l = Some x.
Proof. by apply list_lookup_middle. Qed.

(** A goroutine started with all other tickets returned runs to its end:
    it copies, returns its ticket, sends its result and exits. *)
Lemma goroutine_runs (m : Main) (gs : list Goroutine) (ch : InfoProvider)
    (q : list (option error)) (w : World) :
  length q < maxParallelJobsCount * 2 ->
  steps [TGo (length gs); TGo (length gs); TGo (length gs); TGo (length gs)]
    (mkSched m (gs ++ [GCopy ch]) 7 q 1 w) =
  Some (mkSched m (gs ++ [GExit ch (fst (copyObject ch w))]) 8
          (q ++ [fst (copyObject ch w)]) 0 (snd (copyObject ch w))).
Proof.
  intros Hq. destruct (copyObject ch w) as [err w'] eqn:Hcopy.
  cbn [steps step fst snd].
  unfold stepGo at 1. cbn [goroutines world main tickets errors wg].
  rewrite lookup_last, Hcopy. cbv beta iota. rewrite insert_last.
  unfold stepGo at 1. cbn [goroutines world main tickets errors wg].
  rewrite lookup_last, insert_last.
  destruct (decide (7 < maxParallelJobsCount)) as [_|Hno];
    [|unfold maxParallelJobsCount in Hno; lia].
  unfold stepGo at 1. cbn [goroutines world main tickets errors wg].
  rewrite lookup_last, insert_last.
  destruct (decide (length q < maxParallelJobsCount * 2)) as [_|Hno]; [|done].
  unfold stepGo at 1. cbn [goroutines world main tickets errors wg].
  rewrite lookup_last, insert_last. reflexivity.
Qed.

(** The main thread starts a job and its goroutine runs to its end. *)
Lemma job_runs (drained : bool) (gs : list Goroutine) (ch : InfoProvider)
    (rest : list InfoProvider) (w : World) (tail : list Thread) :
  steps ([TMain] ++ (if drained then [] else [TMain]) ++ [TMain; TMain]
         ++ [TGo (length gs); TGo (length gs); TGo (length gs); TGo (length gs)]
         ++ tail)
    (mkSched (MRange (ch :: rest)) gs maxParallelJobsCount
       (if drained then [] else [None]) 0 w) =
  steps tail
    (mkSched (MRange rest) (gs ++ [GExit ch (fst (copyObject ch w))]) 8
       [fst (copyObject ch w)] 0 (snd (copyObject ch w))).
Proof.
  assert (Hstart :
    steps (([TMain] ++ (if drained then [] else [TMain])) ++ [TMain; TMain])
      (mkSched (MRange (ch :: rest)) gs maxParallelJobsCount
         (if drained then [] else [None]) 0 w) =
    Some (mkSched (MRange rest) (gs ++ [GCopy ch]) 7 [] 1 w)).
  { by destruct drained. }
  rewrite (app_assoc [TMain]), (app_assoc ([TMain] ++ _) [TMain; TMain]).
  rewrite steps_app, Hstart, steps_app.
  rewrite goroutine_runs by (unfold maxParallelJobsCount; cbn; lia).
  reflexivity.
Qed.

Lemma oneByOne_run (chs : list InfoProvider) :
  forall (drained : bool) (gs : list Goroutine) (w : World),
  exists s',
    steps (oneByOne (length gs) drained chs w)
      (mkSched (MRange chs) gs maxParallelJobsCount
         (if drained then [] else [None]) 0 w) = Some s'
    /\ main s' = MReturn (copyInOrder chs w).
Proof.
  induction chs as [|ch rest IH]; intros drained gs w.
  - destruct drained; eexists; split; reflexivity.
  - cbn [oneByOne copyInOrder]. rewrite job_runs.
    destruct (copyObject ch w) as [[err|] w'] eqn:Hcopy; cbn [fst snd].
    + destruct rest as [|ch' rest']; eexists; split; reflexivity.
    + specialize (IH false (gs ++ [GExit ch None]) w').
      rewrite length_app, Nat.add_1_r in IH. exact IH.
Qed.

(** X21.  For every list of jobs there is a run on which [Infos] returns.
    When each goroutine finishes before the next job is started, [Infos]
    returns the error of the first job whose copy fails, the copies being
    made one after the other, and nil when none fails. *)
Theorem Infos_one_by_one (chs : list InfoProvider) (w : World) :
  Infos chs (oneByOne 0 true chs w) w = Some (copyInOrder chs w).
Proof.
  unfold Infos. destruct (oneByOne_run chs true [] w) as (s' & Hrun & Hret).
  change (mkSched (MRange chs) [] maxParallelJobsCount [] 0 w)
    with (Infos_start chs w) in Hrun.
  change (length (@nil Goroutine)) with 0 in Hrun.
  by rewrite Hrun, Hret.
Qed.

(** X22.  A run of [Infos] on [n] jobs has at most [8 * n + 3] steps, all
    threads together: no schedule makes it run forever. *)
Theorem Infos_run_length (chs : list InfoProvider) (schedule : list Thread)
    (w : World) (s : Sched) :
  steps schedule (Infos_start chs w) = Some s ->
  length schedule <= 8 * length chs + 3.
Proof.
  intros Hrun. apply steps_bounded in Hrun.
  assert (Hstart : stepsLeft (Infos_start chs w) = 8 * length chs + 3).
  { unfold stepsLeft, Infos_start. cbn [main goroutines errors mainSteps map length].
    change (list_sum []) with 0. lia. }
  lia.
Qed.

(** X23.  The tickets are conserved: at every point of a run the tickets in
    the channel and the goroutines that have not yet returned theirs add up
    to eight, so at most eight copies are under way at once. *)
Theorem Infos_tickets_conserved (chs : list InfoProvider) (schedule : list Thread)
    (w : World) (s : Sched) :
  steps schedule (Infos_start chs w) = Some s ->
  tickets s + length (List.filter gHolding (goroutines s)) = maxParallelJobsCount
  /\ length (List.filter (fun g => match g with GCopy _ => true | _ => false end)
               (goroutines s)) <= 8.
Proof.
  intros Hrun.
  assert (Hchan : ChannelInv s).
  { apply (ChannelInv_steps schedule (Infos_start chs w)); [|done].
    split; [reflexivity|cbn; lia]. }
  destruct Hchan as [Htickets _]. split; [exact Htickets|].
  unfold maxParallelJobsCount in Htickets.
  assert (Hle : length (List.filter (fun g => match g with GCopy _ => true | _ => false end)
                          (goroutines s))
                <= length (List.filter gHolding (goroutines s))).
  { clear. induction (goroutines s) as [|g gs IH]; [done|].
    destruct g; cbn [List.filter gHolding length]; lia. }
  lia.
Qed.

(** X24.  Once [Infos] has returned it starts no further job: whatever the
    goroutines still do, the returned value stands and the list of started
    jobs does not grow. *)
Theorem Infos_return_is_final (schedule : list Thread) (s s' : Sched)
    (r : option error) :
  main s = MReturn r ->
  steps schedule s = Some s' ->
  main s' = MReturn r
  /\ map gHandler (goroutines s') = map gHandler (goroutines s).
Proof.
  revert s. induction schedule as [|t schedule IH]; intros s Hret; simpl.
  - by intros [= <-].
  - destruct (step t s) as [s1|] eqn:Hstep; [|done]. intros Hrun.
    destruct t as [|i]; simpl in Hstep.
    + unfold stepMain in Hstep. by rewrite Hret in Hstep.
    + destruct (stepGo_cases i s s1 Hstep)
        as (l1 & g & l2 & g' & Hgs & Hgs1 & Hm & Hh & _).
      destruct (IH s1) as [Hret' Hjobs]; [by rewrite Hm|done|].
      split; [done|].
      by rewrite Hjobs, Hgs, Hgs1, !map_app, !map_cons, Hh.
Qed.

End Runs.

Lemma Infos_run_length_witness :
  length (@oneByOne specUploads 0 true [exampleJob] (exampleWorld VersioningEnabled))
    <= 8 * length [exampleJob] + 3.
Proof.
  destruct (@steps specUploads
              (@oneByOne specUploads 0 true [exampleJob] (exampleWorld VersioningEnabled))
              (Infos_start [exampleJob] (exampleWorld VersioningEnabled)))
    as [s|] eqn:Hrun; [|by vm_compute in Hrun].
  exact (@Infos_run_length specUploads [exampleJob] _ _ s Hrun).
Defined.

(** Eight jobs hold all tickets, then one goroutine returns its own: one
    ticket is in the channel and seven goroutines hold one. *)
Lemma Infos_tickets_conserved_witness :
  exists s,
    @steps specUploads busySchedule
      (Infos_start seventeenJobs (exampleWorld VersioningEnabled)) = Some s
    /\ tickets s = 1
    /\ length (List.filter gHolding (goroutines s)) = 7
    /\ length (goroutines s) = 8.
Proof.
  destruct (@steps specUploads busySchedule
              (Infos_start seventeenJobs (exampleWorld VersioningEnabled)))
    as [s|] eqn:Hrun; [|by vm_compute in Hrun].
  exists s. split; [reflexivity|].
  destruct (@Infos_tickets_conserved specUploads seventeenJobs busySchedule
              (exampleWorld VersioningEnabled) s Hrun) as [Hsum _].
  assert (Htickets : tickets s = 1 /\ length (goroutines s) = 8).
  { pose proof Hrun as Hs. vm_compute in Hs. injection Hs as <-. by split. }
  destruct Htickets as [Htickets Hstarted]. rewrite Htickets in Hsum.
  unfold maxParallelJobsCount in Hsum. split; [done|]. split; [lia|done].
Defined.

Lemma Infos_return_is_final_witness :
  exists s',
    @steps specUploads [TGo 1; TGo 1] returnedEarly = Some s'
    /\ main s' = MReturn (Some (PlainError "unsupported source"))
    /\ map gHandler (goroutines s') = [rejectedJob; exampleJob].
Proof.
  destruct (@steps specUploads [TGo 1; TGo 1] returnedEarly) as [s'|] eqn:Hrun;
    [|by vm_compute in Hrun].
  exists s'. split; [reflexivity|].
  exact (@Infos_return_is_final specUploads [TGo 1; TGo 1] returnedEarly s' _
           eq_refl Hrun).
Defined.

Lemma Infos_return_sound_witness :
  exists s,
    @steps specUploads
      (@oneByOne specUploads 0 true [exampleJob] (exampleWorld VersioningEnabled))
      (Infos_start [exampleJob] (exampleWorld VersioningEnabled)) = Some s
    /\ jobResults s = [(exampleJob, Some None)].
Proof.
  destruct (@steps specUploads
              (@oneByOne specUploads 0 true [exampleJob] (exampleWorld VersioningEnabled))
              (Infos_start [exampleJob] (exampleWorld VersioningEnabled)))
    as [s|] eqn:Hrun; [|by vm_compute in Hrun].
  exists s. split; [reflexivity|].
  assert (Hret : main s = MReturn None).
  { pose proof Hrun as Hs. vm_compute in Hs. by injection Hs as <-. }
  exact (proj1 (@Infos_return_sound specUploads [exampleJob] _
                  (exampleWorld VersioningEnabled) s None Hrun Hret)).
Defined.

(** Sixteen jobs under the schedule that blocks seventeen: the main thread
    waits in [wg.Wait] with sixteen results pending and cannot move, a
    goroutine can, and when the goroutines have sent their results [Infos]
    returns nil. *)
Lemma Infos_progress_small_witness :
  exists s,
    @steps specUploads waitingSchedule
      (Infos_start sixteenJobs (exampleWorld VersioningEnabled)) = Some s
    /\ main s = MWait
    /\ wg s = 16
    /\ stepMain s = None
    /\ ((exists r, main s = MReturn r) \/ (exists t s', @step specUploads t s = Some s'))
    /\ @Infos specUploads sixteenJobs (waitingSchedule ++ drainSchedule)
         (exampleWorld VersioningEnabled) = Some None.
Proof.
  destruct (@steps specUploads waitingSchedule
              (Infos_start sixteenJobs (exampleWorld VersioningEnabled)))
    as [s|] eqn:Hrun; [|by vm_compute in Hrun].
  exists s. split; [reflexivity|].
  assert (Hstate : main s = MWait /\ wg s = 16).
  { pose proof Hrun as Hs. vm_compute in Hs. injection Hs as <-. by split. }
  destruct Hstate as [Hmain Hwg].
  split; [exact Hmain|]. split; [exact Hwg|].
  split; [unfold stepMain; by rewrite Hmain, Hwg|].
  split; [|by vm_compute].
  apply (@Infos_progress_small specUploads sixteenJobs waitingSchedule
           (exampleWorld VersioningEnabled) s); [|exact Hrun].
  unfold maxParallelJobsCount, sixteenJobs. rewrite repeat_length. lia.
Defined.

(** ** [CopyObject] and [Validate] *)

Section CopyAndValidate.
Context `{OtherAPI} `{GoLibrary}.

(** X27.  When the existence check of the source does not succeed,
    [CopyObject] sends no copy request.  If the store reports the source as
    missing, the error is the not-found error under the relative path the
    caller gave, not under the full key; any other failure of the check is
    returned with the wrapping [Exists] gave it. *)
Theorem CopyObject_without_source (folder : Folder) (srcPath dstPath : string)
    (ww : WideWorld) (err : error) :
  HeadObject (s3API folder) (trace (inner ww)) (bucket folder)
    (path folder +:+ srcPath) = Some err ->
  CopyObject folder srcPath dstPath ww =
    (Some (if isAwsNotExist err
           then ObjectNotFoundError srcPath
           else Wrapf err ("failed to check s3 object '"
                           +:+ (path folder +:+ srcPath) +:+ "' existence")),
     mkWideWorld
       (mkWorld (trace (inner ww)
                 ++ [ReqHeadObject (bucket folder) (path folder +:+ srcPath)])
          (configs (inner ww)))
       (others ww)).
Proof.
  intros Hhead. unfold CopyObject, within, Exists, bind, call. cbn [fst snd].
  rewrite Hhead. by destruct (isAwsNotExist err).
Qed.

(** X28.  When the source exists, [CopyObject] sends one copy request
    after the existence check, from [bucket/path/srcPath] to
    [path/dstPath] in the same bucket, and returns the store's answer as it
    is, without wrapping. *)
Theorem CopyObject_with_source (folder : Folder) (srcPath dstPath : string)
    (ww : WideWorld) :
  HeadObject (s3API folder) (trace (inner ww)) (bucket folder)
    (path folder +:+ srcPath) = None ->
  CopyObject folder srcPath dstPath ww =
    (CopyObjectAPI
       (trace (inner ww) ++ [ReqHeadObject (bucket folder) (path folder +:+ srcPath)])
       (others ww)
       (pathJoin [bucket folder; path folder; srcPath]) (bucket folder)
       (pathJoin [path folder; dstPath]),
     mkWideWorld
       (mkWorld (trace (inner ww)
                 ++ [ReqHeadObject (bucket folder) (path folder +:+ srcPath)])
          (configs (inner ww)))
       (others ww
        ++ [(S (length (trace (inner ww))),
             ReqCopyObject (pathJoin [bucket folder; path folder; srcPath])
               (bucket folder) (pathJoin [path folder; dstPath]))])).
Proof.
  intros Hhead. unfold CopyObject, within, Exists, bind, call, callOther.
  cbn [fst snd]. rewrite Hhead. cbn [ret negb inner others trace fst snd].
  by rewrite length_app, Nat.add_1_r.
Qed.

(** X17.  [Validate] sends one listing of the folder's prefix, limited to
    one key, and returns nil exactly when the store answers it without
    error.  The error it returns otherwise is a new one that keeps the
    cause as text only: it is never recognised as a not-found error. *)
Theorem Validate_spec (folder : Folder) (ww : WideWorld) :
  (fst (Validate folder ww) = None <->
   ListObjectsAPI (trace (inner ww)) (others ww) (bucket folder) (path folder) "/"
     (Some 1%Z) = None)
  /\ (forall err, fst (Validate folder ww) = Some err -> isAwsNotExist err = false)
  /\ snd (Validate folder ww) =
       mkWideWorld (inner ww)
         (others ww ++ [(length (trace (inner ww)),
                         ReqListObjects (bucket folder) (path folder) "/" (Some 1%Z))]).
Proof.
  unfold Validate, callOther.
  destruct (ListObjectsAPI _ _ _ _ _ _) as [err|]; cbn [fst snd].
  - split; [split; done|]. split; [|done]. by intros e [= <-].
  - split; [done|]. split; [|done]. by intros e.
Qed.

End CopyAndValidate.

Lemma CopyObject_without_source_witness :
  fst (@CopyObject exampleOther exampleLibrary (exampleFolder failingReadAPI)
         "missing" "kept" (mkWideWorld (exampleWorld VersioningDisabled) [])) =
    Some (ObjectNotFoundError "missing")
  /\ others (snd (@CopyObject exampleOther exampleLibrary (exampleFolder failingReadAPI)
                    "missing" "kept" (mkWideWorld (exampleWorld VersioningDisabled) [])))
     = [].
Proof.
  rewrite (@CopyObject_without_source exampleOther exampleLibrary
             (exampleFolder failingReadAPI) "missing" "kept"
             (mkWideWorld (exampleWorld VersioningDisabled) [])
             (AwsError "NotFound" "Not Found") eq_refl).
  split; reflexivity.
Defined.

Lemma CopyObject_with_source_witness :
  @CopyObject exampleOther exampleLibrary (exampleFolder enabledAPI) "a" "b"
    (mkWideWorld (exampleWorld VersioningDisabled) []) =
  (None,
   mkWideWorld
     (mkWorld [ReqHeadObject "bucket" "base/a"]
        (configs (exampleWorld VersioningDisabled)))
     [(1, ReqCopyObject "bucket/base/a" "bucket" "base/b")]).
Proof.
  apply (@CopyObject_with_source exampleOther exampleLibrary
           (exampleFolder enabledAPI) "a" "b"
           (mkWideWorld (exampleWorld VersioningDisabled) [])).
  reflexivity.
Defined.
